(** * pygbm: histogram-based gradient boosting

    A shallow embedding of the repository's estimator
    ([pygbm/gradient_boosting.py]) and of the splitting engine that its test
    suite ([tests/test_splitting.py]) exercises.

    - Module [gradient_boosting] follows [GradientBoostingMachine] line by
      line.  Everything it imports from numpy, scikit-learn, [pygbm.binning]
      and [pygbm.grower] is an interface ([Externals]): the results below hold
      for every implementation of it.
    - Module [splitting] models [pygbm.splitting], whose source is not part of
      the repository files at hand, from the specification; reals are exact
      rationals ([Q]), so rounding is outside the model. *)

From Stdlib Require Import QArith Qround Lqa Lia ZArith String Permutation.
From stdpp Require Import base option list strings gmap.

(** ** Python values shared by both modules *)

Module py.

(** Exceptions raised by the code under study itself. *)
Inductive exn := IndexError | ValueError | AttributeError.

Inductive result (A : Type) : Type :=
| Ok (a : A)
| Raise (e : exn).
Arguments Ok {A} a.
Arguments Raise {A} e.

#[global] Instance result_ret : MRet result := fun A a => Ok a.
#[global] Instance result_bind : MBind result := fun A B f m =>
  match m with Ok a => f a | Raise e => Raise e end.

(** [l[i]] for a Python list: a negative index counts from the end, an index
    out of range raises [IndexError]. *)
Definition index {A} (l : list A) (i : Z) : result A :=
  let n := Z.of_nat (length l) in
  let j := if (i <? 0)%Z then (i + n)%Z else i in
  if ((j <? 0) || (n <=? j))%Z then Raise IndexError
  else match l !! Z.to_nat j with Some a => Ok a | None => Raise IndexError end.

(** [l[i:]]: the start is clipped to the list, never an error. *)
Definition slice_from {A} (l : list A) (i : Z) : list A :=
  let n := Z.of_nat (length l) in
  let j := if (i <? 0)%Z then Z.max (i + n) 0 else Z.min i n in
  drop (Z.to_nat j) l.

(** [range(n)]: empty for [n <= 0]. *)
Definition range (n : Z) : list Z :=
  (fun k => Z.of_nat k) <$> seq 0 (Z.to_nat n).

End py.

(** ** [pygbm/gradient_boosting.py] *)

Module gradient_boosting.
Import py.

(** What [gradient_boosting.py] imports: numpy arrays and the operations on
    them, scikit-learn's input checks, splitter and scorers, the [BinMapper]
    of [pygbm.binning] and the [TreeGrower] of [pygbm.grower].  None of it is
    interpreted: the estimator only moves these values around.  Calls are
    taken to return; a call that raises ends [fit] on the spot, after the
    growers built so far.  A random state is threaded through the calls
    that draw from it. *)
Class Externals := {
  py_float : Type;
  ndarray : Type;
  RandomState : Type;
  random_seed : Type;
  BinMapper : Type;
  Grower : Type;
  Predictor : Type;
  Scorer : Type;
  (* float arithmetic and comparisons of [_should_stop] *)
  f_zero : py_float;
  f_one : py_float;
  f_sub : py_float -> py_float -> py_float;
  f_mul : py_float -> py_float -> py_float;
  f_gt : py_float -> py_float -> bool;
  f_ge : py_float -> py_float -> bool;
  (* numpy *)
  shape0 : ndarray -> Z;
  asfortranarray : ndarray -> ndarray;
  ascontiguousarray : ndarray -> ndarray;
  asarray_float32 : ndarray -> ndarray;
  np_copy : ndarray -> ndarray;
  np_ones_float32 : Z -> ndarray;
  np_zeros_float32 : Z -> ndarray;
  np_isub : ndarray -> ndarray -> ndarray;
  np_iadd : ndarray -> ndarray -> ndarray;
  np_take : ndarray -> ndarray -> ndarray;
  rng_choice : RandomState -> Z -> Z -> ndarray * RandomState;
  (* sklearn *)
  check_X_y : ndarray -> ndarray -> ndarray * ndarray;
  check_random_state : random_seed -> RandomState;
  check_scoring : string -> Scorer;
  _score_func : Scorer -> ndarray -> ndarray -> py_float;
  train_test_split :
    ndarray -> ndarray -> py_float -> RandomState ->
    (ndarray * ndarray * ndarray * ndarray) * RandomState;
  (* pygbm.binning *)
  fit_transform : Z -> RandomState -> ndarray -> BinMapper * ndarray * RandomState;
  bin_thresholds_ : BinMapper -> ndarray;
}.

Section Estimator.
Context {E : Externals}.

(** A value passed by keyword. *)
Inductive pyval :=
| PyNone
| PyInt (z : Z)
| PyFloat (x : py_float).

Definition of_option_int (o : option Z) : pyval :=
  match o with None => PyNone | Some z => PyInt z end.

(** One call [TreeGrower(X_binned, gradients, hessians, **kwargs)]: the three
    positional arguments and the dictionary of keyword arguments, the arrays
    as they are when the call is made. *)
Record TreeGrowerCall := {
  tg_X_binned : ndarray;
  tg_gradients : ndarray;
  tg_hessians : ndarray;
  tg_kwargs : gmap string pyval;
}.

(** [pygbm.grower]: the constructor, [grow], [make_predictor], and the
    predictor's two prediction methods ([predictor_predict] is its
    [predict]). *)
Class GrowerInterface := {
  TreeGrower : TreeGrowerCall -> Grower;
  grow : Grower -> Grower;
  make_predictor : Grower -> ndarray -> Predictor;
  predictor_predict : Predictor -> ndarray -> ndarray;
  predict_binned : Predictor -> ndarray -> ndarray;
}.
Context {G : GrowerInterface}.

(** The constructor's parameters, stored under their own names
    ([__init__]). *)
Record GradientBoostingMachine := {
  learning_rate : py_float;
  max_iter : Z;
  max_leaf_nodes : Z;
  max_depth : option Z;
  l2_regularization : py_float;
  n_bins : Z;
  max_no_improvement : Z;
  validation_split : option py_float;
  scoring : string;
  tol : option py_float;
  verbose : Z;
  random_state : random_seed;
}.

Definition __init__ learning_rate max_iter max_leaf_nodes max_depth
    l2_regularization n_bins max_no_improvement validation_split scoring tol
    verbose random_state : GradientBoostingMachine :=
  {| learning_rate := learning_rate; max_iter := max_iter;
     max_leaf_nodes := max_leaf_nodes; max_depth := max_depth;
     l2_regularization := l2_regularization; n_bins := n_bins;
     max_no_improvement := max_no_improvement;
     validation_split := validation_split; scoring := scoring; tol := tol;
     verbose := verbose; random_state := random_state |}.

(** The attributes [fit] sets on the estimator, the [gradients] array it
    updates in place, and a record of every [TreeGrower] constructed so far,
    oldest first.  [validation_scores_] exists only when [validation_split]
    is not [None]; it is read and written under that same test. *)
Record fit_state := {
  predictors_ : list Predictor;
  train_scores_ : list py_float;
  validation_scores_ : list py_float;
  n_iter_ : Z;
  gradients : ndarray;
  grower_calls : list TreeGrowerCall;
}.

(** Python's [max] over a list: the first of the largest elements;
    [ValueError] on an empty list. *)
Definition py_max (l : list py_float) : result py_float :=
  match l with
  | [] => Raise ValueError
  | x :: xs => Ok (fold_left (fun m y => if f_gt y m then y else m) xs x)
  end.

Definition _should_stop (self : GradientBoostingMachine)
    (scores : list py_float) : result bool :=
  let k := max_no_improvement self in
  if (length scores =? 0)%nat
     || (negb (k =? 0)%Z && (Z.of_nat (length scores) <? k)%Z)
  then Ok false
  else
    let context_scores := slice_from scores (- k) in
    candidate ← index scores (- k);
    let tol := match tol self with None => f_zero | Some t => t end in
    (* sklearn scores: higher is always better. *)
    best ← py_max context_scores;
    let best_with_tol := f_mul best (f_sub f_one tol) in
    Ok (f_ge candidate best_with_tol).

Definition _predict_binned (predictors : list Predictor) (X_binned : ndarray)
    : ndarray :=
  fold_left (fun predicted predictor =>
               np_iadd predicted (predict_binned predictor X_binned))
            predictors (np_zeros_float32 (shape0 X_binned)).

Definition record_train_score (x : py_float) (st : fit_state) : fit_state :=
  {| predictors_ := predictors_ st;
     train_scores_ := train_scores_ st ++ [x];
     validation_scores_ := validation_scores_ st;
     n_iter_ := n_iter_ st; gradients := gradients st;
     grower_calls := grower_calls st |}.

Definition record_validation_score (x : py_float) (st : fit_state) : fit_state :=
  {| predictors_ := predictors_ st;
     train_scores_ := train_scores_ st;
     validation_scores_ := validation_scores_ st ++ [x];
     n_iter_ := n_iter_ st; gradients := gradients st;
     grower_calls := grower_calls st |}.

Definition set_n_iter (n : Z) (st : fit_state) : fit_state :=
  {| predictors_ := predictors_ st;
     train_scores_ := train_scores_ st;
     validation_scores_ := validation_scores_ st;
     n_iter_ := n; gradients := gradients st;
     grower_calls := grower_calls st |}.

(** [_stopping_criterion], without its log message.  [X_binned_val] and
    [y_val] are [None] when [fit] has no validation set; predicting on
    [None] raises. *)
Definition _stopping_criterion (self : GradientBoostingMachine)
    (scorer : Scorer) (X_binned_train y_train : ndarray)
    (X_binned_val y_val : option ndarray) (st : fit_state)
    : fit_state * result bool :=
  let predicted_train := _predict_binned (predictors_ st) X_binned_train in
  let score_train := _score_func scorer y_train predicted_train in
  let st := record_train_score score_train st in
  match validation_split self with
  | Some _ =>
      match X_binned_val, y_val with
      | Some X_binned_val, Some y_val =>
          let predicted_val :=
            _predict_binned (predictors_ st) X_binned_val in
          let score_val := _score_func scorer y_val predicted_val in
          let st := record_validation_score score_val st in
          (st, _should_stop self (validation_scores_ st))
      | _, _ => (st, Raise AttributeError)
      end
  | None => (st, _should_stop self (train_scores_ st))
  end.

(** The keyword arguments of the [TreeGrower] call in [fit]. *)
Definition grower_kwargs (self : GradientBoostingMachine) : gmap string pyval :=
  <["n_bins" := PyInt (n_bins self)]>
  (<["max_leaf_nodes" := PyInt (max_leaf_nodes self)]>
  (<["max_depth" := of_option_int (max_depth self)]>
  (<["shrinkage" := PyFloat (learning_rate self)]> ∅))).

(** One boosting round after the stopping test: build a grower, grow it,
    keep its predictor, update the gradients in place. *)
Definition boosting_round (self : GradientBoostingMachine)
    (bin_mapper : BinMapper) (X_binned_train hessians : ndarray)
    (st : fit_state) : fit_state :=
  let call :=
    {| tg_X_binned := X_binned_train; tg_gradients := gradients st;
       tg_hessians := hessians; tg_kwargs := grower_kwargs self |} in
  let grower := grow (TreeGrower call) in
  let predictor := make_predictor grower (bin_thresholds_ bin_mapper) in
  {| predictors_ := predictors_ st ++ [predictor];
     train_scores_ := train_scores_ st;
     validation_scores_ := validation_scores_ st;
     n_iter_ := n_iter_ st;
     gradients :=
       np_isub (gradients st) (predict_binned predictor X_binned_train);
     grower_calls := grower_calls st ++ [call] |}.

(** [for n_iter in range(self.max_iter)], over the rounds still to run.  The
    second component is the exception that ended the loop, if any. *)
Fixpoint boosting_loop (self : GradientBoostingMachine) (scorer : Scorer)
    (bin_mapper : BinMapper)
    (X_binned_train hessians X_binned_small_train y_small_train : ndarray)
    (X_binned_val y_val : option ndarray)
    (rounds : list Z) (st : fit_state) : fit_state * option exn :=
  match rounds with
  | [] => (st, None)
  | n_iter :: rounds =>
      let st := set_n_iter n_iter st in
      match _stopping_criterion self scorer X_binned_small_train
              y_small_train X_binned_val y_val st with
      | (st, Raise e) => (st, Some e)
      | (st, Ok true) => (st, None)
      | (st, Ok false) =>
          boosting_loop self scorer bin_mapper X_binned_train hessians
            X_binned_small_train y_small_train X_binned_val y_val rounds
            (boosting_round self bin_mapper X_binned_train hessians st)
      end
  end.

(** The local variables of [fit] when it reaches the loop. *)
Record fit_locals := {
  X_checked : ndarray;
  y_checked : ndarray;
  bin_mapper_ : BinMapper;
  X_binned : ndarray;
  X_binned_train : ndarray;
  y_train : ndarray;
  X_binned_val : option ndarray;
  y_val : option ndarray;
  X_binned_small_train : ndarray;
  y_small_train : ndarray;
  hessians : ndarray;
  scorer : Scorer;
  initial : fit_state;
}.

(** [fit] up to the loop (printing and timing left out). *)
Definition fit_setup (self : GradientBoostingMachine) (X y : ndarray)
    : fit_locals :=
  let '(X, y) := check_X_y X y in
  let rng := check_random_state (random_state self) in
  let '(bin_mapper, X_binned, rng) := fit_transform (n_bins self) rng X in
  let '(X_binned_train, X_binned_val, y_train, y_val, rng) :=
    match validation_split self with
    | Some test_size =>
        let '((X_binned_train, X_binned_val, y_train, y_val), rng) :=
          train_test_split X_binned y test_size rng in
        (* Histogram computation is faster on feature-aligned data. *)
        (asfortranarray X_binned_train, Some X_binned_val, y_train,
         Some y_val, rng)
    | None => (X, None, y, None, rng)
    end in
  (* Subsample the training set for score-based monitoring. *)
  let '(X_binned_small_train, y_small_train) :=
    if (shape0 X_binned_train <? 10000)%Z
    then (ascontiguousarray X_binned_train, y_train)
    else
      let '(indices, _) := rng_choice rng (shape0 X_binned_train) 10000 in
      (np_take X_binned_train indices, np_take y_train indices) in
  let gradients := np_copy (asarray_float32 y_train) in
  let hessians := np_ones_float32 1 in
  {| X_checked := X; y_checked := y; bin_mapper_ := bin_mapper;
     X_binned := X_binned; X_binned_train := X_binned_train;
     y_train := y_train; X_binned_val := X_binned_val; y_val := y_val;
     X_binned_small_train := X_binned_small_train;
     y_small_train := y_small_train; hessians := hessians;
     scorer := check_scoring (scoring self);
     initial :=
       {| predictors_ := []; train_scores_ := []; validation_scores_ := [];
          n_iter_ := 0; gradients := gradients; grower_calls := [] |} |}.

(** [fit]: the estimator's state when the loop ends, and the exception that
    ended it, if any. *)
Definition fit (self : GradientBoostingMachine) (X y : ndarray)
    : fit_state * option exn :=
  let L := fit_setup self X y in
  boosting_loop self (scorer L) (bin_mapper_ L) (X_binned_train L)
    (hessians L) (X_binned_small_train L) (y_small_train L)
    (X_binned_val L) (y_val L) (range (max_iter self)) (initial L).

Definition predict (st : fit_state) (X : ndarray) : ndarray :=
  fold_left (fun predicted predictor =>
               np_iadd predicted (predictor_predict predictor X))
            (predictors_ st) (np_zeros_float32 (shape0 X)).

End Estimator.
End gradient_boosting.

(** ** [pygbm/splitting.py], from the specification *)

Module splitting.

(** Strict order on rationals as a boolean. *)
Definition Qltb (x y : Q) : bool := negb (Qle_bool y x).

(** The sum of a list of rationals. *)
Definition Qsum (l : list Q) : Q := foldr Qplus 0%Q l.

(** The rational a count stands for. *)
Definition Qnat (n : nat) : Q := inject_Z (Z.of_nat n).

(** Modelled from the spec: the histogram entry and histogram of
    [pygbm.splitting], which is missing from the repository files (spec
    section 3): one [(count, sum_gradient, sum_hessian)] triple per bin. *)
Record hist_entry := HistEntry {
  count : nat;
  sum_gradients : Q;
  sum_hessians : Q;
}.

Abbreviation histogram := (list hist_entry).

(** Modelled from the spec: the [SplitInfo] of [pygbm.splitting] (spec
    section 3), with the field names the tests read; a sample goes left when
    its bin on [feature_idx] is at most [bin_idx]. *)
Record SplitInfo := {
  gain : Q;
  feature_idx : nat;
  bin_idx : nat;
  gradient_left : Q;
  hessian_left : Q;
  gradient_right : Q;
  hessian_right : Q;
  n_samples_left : nat;
  n_samples_right : nat;
}.

(** Modelled from the spec: the [SplittingContext] of [pygbm.splitting], with
    the arguments the tests construct it from, in their order.  [X_binned]
    is feature-major: one column of bin indices per feature.  A hessian
    array of length one stands for a hessian shared by all samples (spec
    section 9).  The last argument asks for the parallel partitioner;
    [n_threads] is the size of its worker pool (spec section 5). *)
Record SplittingContext := {
  X_binned : list (list nat);
  n_bins : nat;
  n_bins_per_feature : list nat;
  all_gradients : list Q;
  all_hessians : list Q;
  l2_regularization : Q;
  min_hessian_to_split : Q;
  min_samples_leaf : nat;
  min_gain_to_split : Q;
  parallel_splitting : bool;
  n_threads : nat;
}.

Definition n_features (ctx : SplittingContext) : nat := length (X_binned ctx).

(** Modelled from the spec: the reads of [pygbm.splitting] in the context's
    arrays: the bin of sample [i] on feature [f], its gradient and its
    hessian (the shared scalar under constant-hessian mode).  An index
    outside the arrays reads as zero; the partition array only holds indices
    of samples. *)
Definition bin_of (ctx : SplittingContext) (f i : nat) : nat :=
  default 0%nat (X_binned ctx !! f ≫= fun column => column !! i).

Definition gradient_of (ctx : SplittingContext) (i : nat) : Q :=
  default 0%Q (all_gradients ctx !! i).

Definition constant_hessian (ctx : SplittingContext) : bool :=
  (length (all_hessians ctx) =? 1)%nat.

Definition constant_hessian_value (ctx : SplittingContext) : Q :=
  default 0%Q (all_hessians ctx !! 0%nat).

Definition hessian_of (ctx : SplittingContext) (i : nat) : Q :=
  if constant_hessian ctx then constant_hessian_value ctx
  else default 0%Q (all_hessians ctx !! i).

(** Modelled from the spec: the partition array of a fresh context, every
    sample index in order ([context.partition] in the tests). *)
Definition partition (ctx : SplittingContext) : list nat :=
  seq 0 (length (all_gradients ctx)).

(** *** Histogram store (spec section 4.2) *)

Definition empty_entry : hist_entry := HistEntry 0 0 0.

(** Modelled from the spec: one step of direct accumulation, "increment the
    triple at that sample's bin by (1, gradient, hessian) (hessian term
    omitted under constant-hessian mode)". *)
Definition bump (ctx : SplittingContext) (i : nat) (e : hist_entry)
    : hist_entry :=
  {| count := S (count e);
     sum_gradients := (sum_gradients e + gradient_of ctx i)%Q;
     sum_hessians :=
       if constant_hessian ctx then sum_hessians e
       else (sum_hessians e + hessian_of ctx i)%Q |}.

(** Modelled from the spec: direct accumulation of the histogram of feature
    [f] over a node's samples.  The array has [n_bins] entries; a bin index
    beyond it has no entry to increment. *)
Definition build_histogram (ctx : SplittingContext) (f : nat)
    (sample_indices : list nat) : histogram :=
  fold_left (fun hist i => alter (bump ctx i) (bin_of ctx f i) hist)
            sample_indices (replicate (n_bins ctx) empty_entry).

Definition build_histograms (ctx : SplittingContext)
    (sample_indices : list nat) : list histogram :=
  (fun f => build_histogram ctx f sample_indices) <$> seq 0 (n_features ctx).

(** Modelled from the spec: the subtraction trick, "bin-by-bin as parent −
    sibling". *)
Definition entry_sub (p s : hist_entry) : hist_entry :=
  {| count := count p - count s;
     sum_gradients := (sum_gradients p - sum_gradients s)%Q;
     sum_hessians := (sum_hessians p - sum_hessians s)%Q |}.

Definition histogram_subtract (parent sibling : histogram) : histogram :=
  zip_with entry_sub parent sibling.

(** *** Split search (spec section 4.3) *)

(** Count, gradient sum and hessian sum of a set of samples: one side of a
    split, or a whole node. *)
Record stats := Stats {
  s_count : nat;
  s_gradient : Q;
  s_hessian : Q;
}.

Definition zero_stats : stats := Stats 0 0 0.

(** Modelled from the spec: a node's totals, from its samples.  Under a
    constant hessian the total is "count × scalar". *)
Definition node_stats (ctx : SplittingContext) (sample_indices : list nat)
    : stats :=
  {| s_count := length sample_indices;
     s_gradient := Qsum (gradient_of ctx <$> sample_indices);
     s_hessian :=
       if constant_hessian ctx
       then (Qnat (length sample_indices) * constant_hessian_value ctx)%Q
       else Qsum (hessian_of ctx <$> sample_indices) |}.

(** Modelled from the spec: a node's totals, from one of its histograms and
    its sample count: what the subtraction method has at hand, since it does
    not scan the samples again. *)
Definition histogram_stats (ctx : SplittingContext) (n_samples : nat)
    (hist : histogram) : stats :=
  {| s_count := n_samples;
     s_gradient := Qsum (sum_gradients <$> hist);
     s_hessian :=
       if constant_hessian ctx
       then (Qnat n_samples * constant_hessian_value ctx)%Q
       else Qsum (sum_hessians <$> hist) |}.

(** Modelled from the spec: the "running left-side prefix" after one more
    bin. *)
Definition add_entry (ctx : SplittingContext) (left : stats) (e : hist_entry)
    : stats :=
  {| s_count := s_count left + count e;
     s_gradient := (s_gradient left + sum_gradients e)%Q;
     s_hessian :=
       if constant_hessian ctx
       then (s_hessian left + Qnat (count e) * constant_hessian_value ctx)%Q
       else (s_hessian left + sum_hessians e)%Q |}.

(** Modelled from the spec: "the complementary right side is the node's
    total minus the running prefix." *)
Definition complement (total left : stats) : stats :=
  {| s_count := s_count total - s_count left;
     s_gradient := (s_gradient total - s_gradient left)%Q;
     s_hessian := (s_hessian total - s_hessian left)%Q |}.

(** Modelled from the spec: the regularized gain,
    [0.5·gl²/(hl+λ) + 0.5·gr²/(hr+λ) − 0.5·g²/(h+λ)]. *)
Definition split_gain (ctx : SplittingContext) (left right total : stats) : Q :=
  ((1 # 2) * (s_gradient left * s_gradient left)
             / (s_hessian left + l2_regularization ctx)
   + (1 # 2) * (s_gradient right * s_gradient right)
               / (s_hessian right + l2_regularization ctx)
   - (1 # 2) * (s_gradient total * s_gradient total)
               / (s_hessian total + l2_regularization ctx))%Q.

(** Modelled from the spec: the candidate split at boundary bin [b] of
    feature [f], given the prefix up to and including [b]; [None] when a
    side falls short of the minimum hessian or the minimum leaf size. *)
Definition candidate (ctx : SplittingContext) (f b : nat) (total left : stats)
    : option SplitInfo :=
  let right := complement total left in
  if Qltb (s_hessian left) (min_hessian_to_split ctx)
     || Qltb (s_hessian right) (min_hessian_to_split ctx)
     || (s_count left <? min_samples_leaf ctx)%nat
     || (s_count right <? min_samples_leaf ctx)%nat
  then None
  else Some {| gain := split_gain ctx left right total;
               feature_idx := f; bin_idx := b;
               gradient_left := s_gradient left;
               hessian_left := s_hessian left;
               gradient_right := s_gradient right;
               hessian_right := s_hessian right;
               n_samples_left := s_count left;
               n_samples_right := s_count right |}.

(** Modelled from the spec: "track the maximum gain ...; ties broken by
    first-encountered": a later candidate replaces the best one only with a
    strictly larger gain. *)
Definition better (best : option SplitInfo) (cand : option SplitInfo)
    : option SplitInfo :=
  match cand, best with
  | None, _ => best
  | Some c, None => Some c
  | Some c, Some b => if Qltb (gain b) (gain c) then Some c else Some b
  end.

(** Modelled from the spec: the scan of one feature's bins "in increasing
    index order accumulating a running left-side prefix", from bin [b] on. *)
Fixpoint scan_bins (ctx : SplittingContext) (f : nat) (total : stats)
    (entries : list hist_entry) (b : nat) (left : stats)
    (best : option SplitInfo) : option SplitInfo :=
  match entries with
  | [] => best
  | e :: entries =>
      let left := add_entry ctx left e in
      scan_bins ctx f total entries (S b) left
        (better best (candidate ctx f b total left))
  end.

(** Modelled from the spec: the boundary bins of feature [f] are
    [0 ≤ b < B − 1], "excluding the last bin which leaves the right side
    empty". *)
Definition scan_feature (ctx : SplittingContext) (total : stats)
    (best : option SplitInfo) (f : nat) (hist : histogram)
    : option SplitInfo :=
  let B := default 0%nat (n_bins_per_feature ctx !! f) in
  scan_bins ctx f total (take (B - 1) hist) 0 zero_stats best.

(** Modelled from the spec: the search over the features of a node, in
    increasing index order, from feature [f] on. *)
Fixpoint scan_features (ctx : SplittingContext) (total : stats)
    (hists : list histogram) (f : nat) (best : option SplitInfo)
    : option SplitInfo :=
  match hists with
  | [] => best
  | hist :: hists =>
      scan_features ctx total hists (S f) (scan_feature ctx total best f hist)
  end.

(** Modelled from the spec: the sentinel [SplitInfo], "gain set to a
    distinguished negative value meaning no acceptable split"; the tests
    expect [-1].  The spec gives its other fields no meaning: they are
    zero. *)
Definition no_split : SplitInfo :=
  {| gain := (-1)%Q; feature_idx := 0; bin_idx := 0;
     gradient_left := 0; hessian_left := 0;
     gradient_right := 0; hessian_right := 0;
     n_samples_left := 0; n_samples_right := 0 |}.

(** Modelled from the spec: "a node-level result of gain ≤
    min_gain_to_split (strict ...) yields a sentinel SplitInfo." *)
Definition finalize (ctx : SplittingContext) (best : option SplitInfo)
    : SplitInfo :=
  match best with
  | None => no_split
  | Some s => if Qle_bool (gain s) (min_gain_to_split ctx) then no_split else s
  end.

(** Modelled from the spec: [_find_histogram_split(context, feature_idx,
    sample_indices)], the search on one feature, as the tests call it. *)
Definition _find_histogram_split (ctx : SplittingContext) (f : nat)
    (sample_indices : list nat) : SplitInfo * histogram :=
  let hist := build_histogram ctx f sample_indices in
  (finalize ctx
     (scan_feature ctx (node_stats ctx sample_indices) None f hist),
   hist).

(** Modelled from the spec: [find_node_split(context, sample_indices)],
    histograms by direct accumulation, then the search over all features. *)
Definition find_node_split (ctx : SplittingContext)
    (sample_indices : list nat) : SplitInfo * list histogram :=
  let hists := build_histograms ctx sample_indices in
  (finalize ctx
     (scan_features ctx (node_stats ctx sample_indices) hists 0 None),
   hists).

(** Modelled from the spec: [find_node_split_subtraction(context,
    sample_indices, parent_histograms, sibling_histograms)], histograms as
    parent minus sibling, the node's totals read off the first of them. *)
Definition find_node_split_subtraction (ctx : SplittingContext)
    (sample_indices : list nat)
    (parent_histograms sibling_histograms : list histogram)
    : SplitInfo * list histogram :=
  let hists := zip_with histogram_subtract parent_histograms
                        sibling_histograms in
  let total := histogram_stats ctx (length sample_indices)
                               (default [] (hists !! 0%nat)) in
  (finalize ctx (scan_features ctx total hists 0 None), hists).

(** *** Partitioner (spec section 4.4) *)

(** Modelled from the spec: the split rule of the partitioner, "bin ≤ b →
    left, bin > b → right". *)
Definition goes_left (ctx : SplittingContext) (si : SplitInfo) (i : nat)
    : Prop :=
  bin_of ctx (feature_idx si) i <= bin_idx si.

#[global] Instance goes_left_dec ctx si i : Decision (goes_left ctx si i).
Proof. unfold goes_left. apply _. Defined.

(** [arr[i], arr[j] = arr[j], arr[i]]. *)
Definition swap (arr : list nat) (i j : nat) : list nat :=
  match arr !! i, arr !! j with
  | Some a, Some b => <[j:=a]> (<[i:=b]> arr)
  | _, _ => arr
  end.

(** Modelled from the spec: one step of the sequential "single-pass
    scan-and-swap": an element that goes left is swapped into the next free
    left position. *)
Definition scan_and_swap (ctx : SplittingContext) (si : SplitInfo)
    (state : list nat * nat) (i : nat) : list nat * nat :=
  let '(arr, position) := state in
  match arr !! i with
  | Some x =>
      if decide (goes_left ctx si x)
      then (swap arr i position, S position)
      else (arr, position)
  | None => (arr, position)
  end.

(** Modelled from the spec: the sequential partitioner's pass over the
    range, "a single-pass scan-and-swap": the reordered range and the split
    position. *)
Definition reorder_single_thread (ctx : SplittingContext) (si : SplitInfo)
    (sample_indices : list nat) : list nat * nat :=
  fold_left (scan_and_swap ctx si) (seq 0 (length sample_indices))
            (sample_indices, 0).

(** Modelled from the spec: [split_indices_single_thread(context, split_info,
    sample_indices)]; the two results are the views before and from the
    split position of the reordered range. *)
Definition split_indices_single_thread (ctx : SplittingContext)
    (si : SplitInfo) (sample_indices : list nat) : list nat * list nat :=
  let '(arr, position) := reorder_single_thread ctx si sample_indices in
  (take position arr, drop position arr).

(** Modelled from the spec: the parallel mode "divides a node's sample range
    into chunks"; the sizes of [k] chunks of a range of [n], as even as
    possible. *)
Definition chunk_sizes (n k : nat) : list nat :=
  (fun t => n / k + (if (t <? n mod k)%nat then 1 else 0)) <$> seq 0 k.

(** Modelled from the spec: a worker's pass over its chunk: the elements
    that go left and those that go right, in the order met; their lengths are the chunk's counts. *)
Definition classify (ctx : SplittingContext) (si : SplitInfo)
    (chunk : list nat) : list nat * list nat :=
  (filter (goes_left ctx si) chunk,
   filter (fun i => ~ goes_left ctx si i) chunk).

(** Modelled from the spec: the "single merge pass computing each chunk's
    output offset": each chunk's left elements are written at its left
    offset and its right elements at its right offset, the offsets being the
    running sums of the counts of the chunks before. *)
Fixpoint merge_chunks (parts : list (list nat * list nat))
    (left_offset right_offset : nat) (arr : list nat) : list nat :=
  match parts with
  | [] => arr
  | (lefts, rights) :: parts =>
      merge_chunks parts (left_offset + length lefts)
        (right_offset + length rights)
        (list_inserts right_offset rights
           (list_inserts left_offset lefts arr))
  end.

(** Modelled from the spec: the parallel partitioner's passes over the
    range, the "chunked scan that counts per-chunk left/right membership
    then merges chunk results into final contiguous positions": the
    reordered range and the split position. *)
Definition reorder_parallel (ctx : SplittingContext) (si : SplitInfo)
    (sample_indices : list nat) : list nat * nat :=
  let sizes := chunk_sizes (length sample_indices) (n_threads ctx) in
  let parts := classify ctx si <$> reshape sizes sample_indices in
  let right_child_position := sum_list_with (length ∘ fst) parts in
  (merge_chunks parts 0 right_child_position sample_indices,
   right_child_position).

(** Modelled from the spec: [split_indices_parallel(context, split_info,
    sample_indices)]; the two results are the views before and from the
    split position of the reordered range. *)
Definition split_indices_parallel (ctx : SplittingContext) (si : SplitInfo)
    (sample_indices : list nat) : list nat * list nat :=
  let '(arr, position) := reorder_parallel ctx si sample_indices in
  (take position arr, drop position arr).

End splitting.

(** * Results on [gradient_boosting.py] *)

Section EstimatorFacts.
Import py gradient_boosting.
Context {E : Externals} {G : GrowerInterface}.
Implicit Types (self : GradientBoostingMachine) (st : fit_state).

(** The predictor a call gives rise to. *)
Definition predictor_of (bin_mapper : BinMapper) (call : TreeGrowerCall)
    : Predictor :=
  make_predictor (grow (TreeGrower call)) (bin_thresholds_ bin_mapper).

(** What the log of one run must look like: each call takes the same
    training matrix, hessians and keywords, and the gradients of a call are
    those of the call before, less its predictor's output on the training
    matrix. *)
Fixpoint rounds_from self (bin_mapper : BinMapper) (M hess g : ndarray)
    (calls : list TreeGrowerCall) : Prop :=
  match calls with
  | [] => True
  | c :: calls =>
      c = {| tg_X_binned := M; tg_gradients := g; tg_hessians := hess;
             tg_kwargs := grower_kwargs self |}
      /\ rounds_from self bin_mapper M hess
           (np_isub g (predict_binned (predictor_of bin_mapper c) M)) calls
  end.

Lemma stopping_criterion_frame self sc Xs ys Xv yv st :
  let st' := (_stopping_criterion self sc Xs ys Xv yv st).1 in
  gradients st' = gradients st
  /\ grower_calls st' = grower_calls st
  /\ predictors_ st' = predictors_ st.
Proof.
  unfold _stopping_criterion.
  destruct (validation_split self); [destruct Xv, yv|]; simpl; auto.
Qed.

Lemma boosting_loop_log self sc bm M hess Xs ys Xv yv rounds : forall st,
  exists new,
    grower_calls (boosting_loop self sc bm M hess Xs ys Xv yv rounds st).1
      = grower_calls st ++ new
    /\ rounds_from self bm M hess (gradients st) new
    /\ length new <= length rounds.
Proof.
  induction rounds as [|n rounds IH]; intros st; simpl.
  - exists []. rewrite app_nil_r. simpl. auto.
  - pose proof (stopping_criterion_frame self sc Xs ys Xv yv (set_n_iter n st))
      as (Hg & Hc & _).
    destruct (_stopping_criterion self sc Xs ys Xv yv (set_n_iter n st))
      as [st1 [[]|e]]; simpl in *.
    + exists []. rewrite app_nil_r, Hc. simpl. split; [done|split; [done|lia]].
    + destruct (IH (boosting_round self bm M hess st1)) as (new & Hn & Hr & Hl).
      exists ({| tg_X_binned := M; tg_gradients := gradients st1;
                 tg_hessians := hess; tg_kwargs := grower_kwargs self |} :: new).
      rewrite Hn. simpl. rewrite Hc, <- app_assoc. simpl.
      split; [done|]. rewrite <- Hg at 1. split; [|lia].
      split; [done|]. rewrite <- Hg. exact Hr.
    + exists []. rewrite app_nil_r, Hc. simpl. split; [done|split; [done|lia]].
Qed.

Lemma fit_log self X y :
  let L := fit_setup self X y in
  rounds_from self (bin_mapper_ L) (X_binned_train L) (hessians L)
    (gradients (initial L)) (grower_calls (fit self X y).1)
  /\ (length (grower_calls (fit self X y).1) <= Z.to_nat (max_iter self))%nat.
Proof.
  intros L. unfold fit. fold L.
  destruct (boosting_loop_log self (scorer L) (bin_mapper_ L)
              (X_binned_train L) (hessians L) (X_binned_small_train L)
              (y_small_train L) (X_binned_val L) (y_val L)
              (range (max_iter self)) (initial L)) as (new & Hn & Hr & Hl).
  rewrite Hn.
  assert (grower_calls (initial L) = []) as ->.
  { unfold L, fit_setup. repeat case_match; reflexivity. }
  simpl. split; [exact Hr|].
  unfold range in Hl. rewrite length_fmap, length_seq in Hl. exact Hl.
Qed.

Lemma rounds_from_Forall self bm M hess (P : TreeGrowerCall -> Prop) :
  (forall g, P {| tg_X_binned := M; tg_gradients := g; tg_hessians := hess;
                  tg_kwargs := grower_kwargs self |}) ->
  forall calls g, rounds_from self bm M hess g calls -> Forall P calls.
Proof.
  intros HP calls. induction calls as [|c calls IH]; intros g Hr.
  - constructor.
  - destruct Hr as [-> Hr]. constructor; [apply HP|]. exact (IH _ Hr).
Qed.

Lemma should_stop_short self (scores : list py_float) :
  (Z.of_nat (length scores) < max_no_improvement self)%Z ->
  _should_stop self scores = Ok false.
Proof.
  intros Hk. unfold _should_stop.
  destruct (length scores =? 0)%nat; [done|]. simpl.
  destruct (Z.eqb_spec (max_no_improvement self) 0) as [H0|_]; [lia|].
  destruct (Z.ltb_spec (Z.of_nat (length scores)) (max_no_improvement self));
    [done|lia].
Qed.

Lemma fit_setup_validation self X y :
  let L := fit_setup self X y in
  (validation_split self = None -> X_binned_val L = None /\ y_val L = None)
  /\ (is_Some (validation_split self) ->
      is_Some (X_binned_val L) /\ is_Some (y_val L)).
Proof.
  unfold fit_setup. repeat case_match; simplify_eq/=; split;
    intros Hvs; try (split; eauto); try done; by destruct Hvs.
Qed.

Lemma fit_setup_initial self X y :
  let st := initial (fit_setup self X y) in
  predictors_ st = [] /\ train_scores_ st = []
  /\ validation_scores_ st = [] /\ grower_calls st = [].
Proof. unfold fit_setup. repeat case_match; simpl; auto. Qed.

(** With at least one round to run and a patience of two rounds or more,
    the first round never stops, so [fit] constructs a grower. *)
Lemma fit_builds_a_grower self X y :
  (1 <= max_iter self)%Z -> (2 <= max_no_improvement self)%Z ->
  grower_calls (fit self X y).1 <> [].
Proof.
  intros Hi Hk. unfold fit.
  pose proof (fit_setup_validation self X y) as [HvN HvS].
  pose proof (fit_setup_initial self X y) as (Hp & Ht & Hv & Hc).
  set (L := fit_setup self X y) in *.
  unfold range. destruct (Z.to_nat (max_iter self)) as [|m] eqn:Hm; [lia|].
  simpl.
  assert (forall n, exists st1,
    _stopping_criterion self (scorer L) (X_binned_small_train L)
      (y_small_train L) (X_binned_val L) (y_val L) (set_n_iter n (initial L))
    = (st1, Ok false)) as Hfirst.
  { intros n. unfold _stopping_criterion.
    destruct (validation_split self) as [t|] eqn:Hvs.
    - destruct HvS as [[Xv ->] [yv ->]]; [eauto|].
      eexists. f_equal. apply should_stop_short. simpl.
      rewrite Hv. simpl. lia.
    - eexists. f_equal. apply should_stop_short. simpl.
      rewrite Ht. simpl. lia. }
  destruct (Hfirst (Z.of_nat 0)) as [st1 Hst]. rewrite Hst.
  destruct (boosting_loop_log self (scorer L) (bin_mapper_ L)
              (X_binned_train L) (hessians L) (X_binned_small_train L)
              (y_small_train L) (X_binned_val L) (y_val L)
              ((fun k => Z.of_nat k) <$> seq 1 m)
              (boosting_round self (bin_mapper_ L) (X_binned_train L)
                 (hessians L) st1)) as (new & Hn & _).
  unfold fmap in Hn. rewrite Hn. simpl. intros Happ.
  apply (f_equal length) in Happ. rewrite !length_app in Happ. simpl in Happ. lia.
Qed.

(** The training matrix as claim C9 words it: the raw input (as checked)
    without a validation split, the Fortran-ordered binned training subset
    with one. *)
Definition claimed_training_matrix self (X y : ndarray) : ndarray :=
  let '(X, y) := check_X_y X y in
  let rng := check_random_state (random_state self) in
  let '(_, X_binned, rng) := fit_transform (n_bins self) rng X in
  match validation_split self with
  | None => X
  | Some test_size =>
      asfortranarray (train_test_split X_binned y test_size rng).1.1.1.1
  end.

(** C8 as the claim words it: a grower is given the machine's L2
    regularization and some minimum samples per leaf, minimum hessian and
    minimum gain, besides bin count, leaf and depth limits. *)
Definition receives_growth_parameters self (c : TreeGrowerCall) : Prop :=
  tg_kwargs c !! "l2_regularization" = Some (PyFloat (l2_regularization self))
  /\ is_Some (tg_kwargs c !! "min_samples_leaf")
  /\ is_Some (tg_kwargs c !! "min_hessian_to_split")
  /\ is_Some (tg_kwargs c !! "min_gain_to_split")
  /\ tg_kwargs c !! "n_bins" = Some (PyInt (n_bins self))
  /\ tg_kwargs c !! "max_leaf_nodes" = Some (PyInt (max_leaf_nodes self))
  /\ tg_kwargs c !! "max_depth" = Some (of_option_int (max_depth self)).

Lemma fit_calls_kwargs self X y :
  Forall (fun c => tg_kwargs c = grower_kwargs self)
         (grower_calls (fit self X y).1).
Proof.
  destruct (fit_log self X y) as [Hr _].
  eapply rounds_from_Forall; [|exact Hr]. done.
Qed.

Lemma grower_kwargs_lookup self :
  grower_kwargs self !! "n_bins" = Some (PyInt (n_bins self))
  /\ grower_kwargs self !! "max_leaf_nodes" = Some (PyInt (max_leaf_nodes self))
  /\ grower_kwargs self !! "max_depth" = Some (of_option_int (max_depth self))
  /\ grower_kwargs self !! "shrinkage" = Some (PyFloat (learning_rate self))
  /\ grower_kwargs self !! "l2_regularization" = None
  /\ grower_kwargs self !! "min_samples_leaf" = None
  /\ grower_kwargs self !! "min_hessian_to_split" = None
  /\ grower_kwargs self !! "min_gain_to_split" = None.
Proof. unfold grower_kwargs. by simplify_map_eq. Qed.

(** C8, as the code has it: every [TreeGrower] that [fit] constructs is given
    the machine's [n_bins], [max_leaf_nodes] and [max_depth], and its
    [learning_rate] as [shrinkage]; the machine has no minimum samples per
    leaf, minimum hessian or minimum gain of its own, and passes none. *)
Theorem fit_grower_keywords self X y :
  Forall (fun c =>
    tg_kwargs c !! "n_bins" = Some (PyInt (n_bins self))
    /\ tg_kwargs c !! "max_leaf_nodes" = Some (PyInt (max_leaf_nodes self))
    /\ tg_kwargs c !! "max_depth" = Some (of_option_int (max_depth self))
    /\ tg_kwargs c !! "shrinkage" = Some (PyFloat (learning_rate self))
    /\ tg_kwargs c !! "min_samples_leaf" = None
    /\ tg_kwargs c !! "min_hessian_to_split" = None
    /\ tg_kwargs c !! "min_gain_to_split" = None)
    (grower_calls (fit self X y).1).
Proof.
  eapply Forall_impl; [apply fit_calls_kwargs|].
  intros c ->.
  destruct (grower_kwargs_lookup self) as (?&?&?&?&_&?&?&?). auto 10.
Qed.

(** C9: every [TreeGrower] of a run is bound to the same training matrix,
    which is the raw (checked) input [X] when [validation_split] is [None],
    whatever [BinMapper.fit_transform] returned, and the Fortran-ordered
    binned training subset otherwise; the gradients passed to one grower
    are those of the grower before, less its predictor's [predict_binned]
    on that same matrix. *)
Theorem fit_training_matrix self X y :
  let M := claimed_training_matrix self X y in
  let L := fit_setup self X y in
  let calls := grower_calls (fit self X y).1 in
  X_binned_train L = M
  /\ (validation_split self = None -> M = (check_X_y X y).1)
  /\ Forall (fun c => tg_X_binned c = M) calls
  /\ (forall k c c', calls !! k = Some c -> calls !! S k = Some c' ->
        tg_gradients c' =
          np_isub (tg_gradients c)
                  (predict_binned (predictor_of (bin_mapper_ L) c) M)).
Proof.
  intros M L calls.
  assert (X_binned_train L = M) as HM.
  { unfold L, M, fit_setup, claimed_training_matrix.
    repeat case_match; simplify_eq/=; reflexivity. }
  split; [exact HM|]. split.
  { intros Hn. unfold M, claimed_training_matrix. rewrite Hn.
    repeat case_match; reflexivity. }
  destruct (fit_log self X y) as [Hr _]. fold L calls in Hr.
  rewrite HM in Hr. split.
  - eapply rounds_from_Forall; [|exact Hr]. done.
  - revert Hr. generalize (gradients (initial L)). clearbody calls.
    induction calls as [|c0 calls IH]; intros g Hr k c c' Hk Hk'; [done|].
    destruct Hr as [Hc0 Hr]. destruct k as [|k]; simpl in *.
    + simplify_eq. destruct calls as [|c1 calls]; [done|].
      simpl in *. simplify_eq. by destruct Hr as [-> _].
    + eapply IH; eauto.
Qed.

(** C10: every [TreeGrower] of a run is given the length-1 array of ones as
    hessians, whatever the estimator's parameters and the data, and the
    first one is given a float32 copy of the training targets. *)
Theorem fit_constant_hessian self X y :
  let L := fit_setup self X y in
  let calls := grower_calls (fit self X y).1 in
  hessians L = np_ones_float32 1
  /\ Forall (fun c => tg_hessians c = np_ones_float32 1) calls
  /\ gradients (initial L) = np_copy (asarray_float32 (y_train L))
  /\ (forall c, head calls = Some c ->
        tg_gradients c = np_copy (asarray_float32 (y_train L))).
Proof.
  intros L calls.
  assert (hessians L = np_ones_float32 1) as Hh.
  { unfold L, fit_setup. repeat case_match; reflexivity. }
  assert (gradients (initial L) = np_copy (asarray_float32 (y_train L))) as Hg.
  { unfold L, fit_setup. repeat case_match; reflexivity. }
  destruct (fit_log self X y) as [Hr _]. fold L calls in Hr.
  split; [exact Hh|]. split; [|split; [exact Hg|]].
  - rewrite Hh in Hr. eapply rounds_from_Forall; [|exact Hr]. done.
  - intros c Hc. destruct calls as [|c0 calls']; [done|].
    simpl in Hc. simplify_eq. destruct Hr as [-> _]. simpl. exact Hg.
Qed.

End EstimatorFacts.

(** ** A small run

    A one-feature data set and stand-ins for the imported functions, to run
    [fit] on: arrays are lists of rationals, binning takes the integer part,
    a tree predicts half of its first gradient everywhere. *)

Module toy.
Import py gradient_boosting.

Definition externals : Externals := {|
  py_float := Q; ndarray := list Q; RandomState := nat; random_seed := nat;
  BinMapper := list Q; Grower := list Q; Predictor := Q; Scorer := unit;
  f_zero := 0%Q; f_one := 1%Q; f_sub := Qminus; f_mul := Qmult;
  f_gt := fun x y => negb (Qle_bool x y);
  f_ge := fun x y => Qle_bool y x;
  shape0 := fun a => Z.of_nat (length a);
  asfortranarray := fun a => a;
  ascontiguousarray := fun a => a;
  asarray_float32 := fun a => a;
  np_copy := fun a => a;
  np_ones_float32 := fun n => replicate (Z.to_nat n) 1%Q;
  np_zeros_float32 := fun n => replicate (Z.to_nat n) 0%Q;
  np_isub := zip_with Qminus;
  np_iadd := zip_with Qplus;
  np_take := fun a _ => a;
  rng_choice := fun r _ _ => ([], S r);
  check_X_y := fun X y => (X, y);
  check_random_state := fun s => s;
  check_scoring := fun _ => tt;
  _score_func := fun _ y p =>
    Qopp (fold_right Qplus 0%Q (zip_with (fun a b => (a - b) * (a - b))%Q y p));
  train_test_split := fun X y _ r =>
    ((drop 1 X, take 1 X, drop 1 y, take 1 y), S r);
  fit_transform := fun _ r X =>
    ([], (fun x => inject_Z (Qfloor x)) <$> X, S r);
  bin_thresholds_ := fun bm => bm;
|}.

Definition grower : @GrowerInterface externals := {|
  TreeGrower := fun c => @tg_gradients externals c;
  grow := fun g => g;
  make_predictor := fun g _ => (hd 0%Q g / 2)%Q;
  predictor_predict := fun p X => (fun _ => p) <$> X;
  predict_binned := fun p X => (fun _ => p) <$> X;
|}.

Definition X : list Q := [1 # 2; 3 # 2; 5 # 2; 7 # 2]%Q.
Definition y : list Q := [1; 2; 3; 4]%Q.

(** Three rounds, no validation split, an L2 regularization of one. *)
Definition self : @GradientBoostingMachine externals :=
  @__init__ externals (1 # 10)%Q 3 31 None 1%Q 256 5 None "neg_mse"
    (Some (1 # 10000000)%Q) 0 0%nat.

(** The same with a quarter of the data held out. *)
Definition self_validated : @GradientBoostingMachine externals :=
  @__init__ externals (1 # 10)%Q 3 31 None 1%Q 256 5 (Some (1 # 4)%Q)
    "neg_mse" (Some (1 # 10000000)%Q) 0 0%nat.

Definition run := @fit externals grower self X y.
Definition run_validated := @fit externals grower self_validated X y.

End toy.

(** C8 fails as worded: in the small run, the growers are not given the
    machine's L2 regularization, nor any minimum samples per leaf, minimum
    hessian or minimum gain. *)
Lemma fit_grower_keywords_counterexample :
  ~ Forall (@receives_growth_parameters toy.externals toy.self)
           (gradient_boosting.grower_calls toy.run.1).
Proof.
  intros HF.
  pose proof (@fit_builds_a_grower toy.externals toy.grower toy.self toy.X toy.y
                ltac:(simpl; lia) ltac:(simpl; lia)) as Hne.
  pose proof (@fit_calls_kwargs toy.externals toy.grower toy.self toy.X toy.y)
    as Hk.
  fold toy.run in Hne, Hk.
  destruct (gradient_boosting.grower_calls toy.run.1) as [|c calls]; [done|].
  apply Forall_cons in HF as [(Hl2 & _) _].
  apply Forall_cons in Hk as [Hc _].
  rewrite Hc in Hl2.
  pose proof (@grower_kwargs_lookup toy.externals toy.self) as (_&_&_&_&Hn&_).
  rewrite Hn in Hl2. discriminate.
Qed.

(** C9 on the small run without validation split: all three growers are
    bound to the raw input, which is not its binned form. *)
Lemma fit_training_matrix_witness :
  gradient_boosting.validation_split toy.self = None
  /\ gradient_boosting.X_binned
       (@gradient_boosting.fit_setup toy.externals toy.self toy.X toy.y)
     = [0; 1; 2; 3]%Q
  /\ length (gradient_boosting.grower_calls toy.run.1) = 3%nat
  /\ Forall (fun c => @gradient_boosting.tg_X_binned toy.externals c
                      = [1 # 2; 3 # 2; 5 # 2; 7 # 2]%Q)
            (gradient_boosting.grower_calls toy.run.1).
Proof.
  destruct (@fit_training_matrix toy.externals toy.grower toy.self toy.X toy.y)
    as (_ & Hraw & HF & _).
  split; [reflexivity|]. split; [reflexivity|]. split; [reflexivity|].
  rewrite (Hraw eq_refl) in HF. exact HF.
Defined.

(** C10 on the small run with a validation split: the three growers get
    the array [[1]] as hessians, and the first one the training targets. *)
Lemma fit_constant_hessian_witness :
  length (gradient_boosting.grower_calls toy.run_validated.1) = 3%nat
  /\ Forall (fun c => @gradient_boosting.tg_hessians toy.externals c = [1%Q])
            (gradient_boosting.grower_calls toy.run_validated.1)
  /\ (forall c, head (gradient_boosting.grower_calls toy.run_validated.1) = Some c ->
        @gradient_boosting.tg_gradients toy.externals c = [2; 3; 4]%Q).
Proof.
  destruct (@fit_constant_hessian toy.externals toy.grower toy.self_validated
              toy.X toy.y) as (_ & HF & _ & Hfirst).
  split; [reflexivity|]. split; [exact HF|exact Hfirst].
Defined.

(** * More on [gradient_boosting.py] *)

Section EstimatorRuns.
Import py gradient_boosting.
Context {E : Externals} {G : GrowerInterface}.
Implicit Types (self : GradientBoostingMachine) (st : fit_state).
Implicit Types (scores older rest : list py_float) (c : py_float).

(** ** The stopping rule, [_should_stop] *)

(** [l[-k]] and [l[-k:]] for a list that ends with [k] elements, [k > 0]. *)
Lemma index_from_end {A} (front : list A) (x : A) (back : list A) :
  index (front ++ x :: back) (- Z.of_nat (S (length back))) = Ok x.
Proof.
  unfold index. rewrite length_app. simpl length.
  destruct (Z.ltb_spec (- Z.of_nat (S (length back))) 0) as [_|]; [|lia].
  replace (- Z.of_nat (S (length back))
           + Z.of_nat (length front + S (length back)))%Z
    with (Z.of_nat (length front)) by lia.
  destruct (Z.ltb_spec (Z.of_nat (length front)) 0); [lia|].
  destruct (Z.leb_spec (Z.of_nat (length front + S (length back)))
                       (Z.of_nat (length front))); [lia|].
  simpl. rewrite Nat2Z.id, lookup_app_r by lia.
  by rewrite Nat.sub_diag.
Qed.

Lemma slice_from_end {A} (front : list A) (x : A) (back : list A) :
  slice_from (front ++ x :: back) (- Z.of_nat (S (length back))) = x :: back.
Proof.
  unfold slice_from. rewrite length_app. simpl length.
  destruct (Z.ltb_spec (- Z.of_nat (S (length back))) 0) as [_|]; [|lia].
  replace (Z.max (- Z.of_nat (S (length back))
                  + Z.of_nat (length front + S (length back))) 0)
    with (Z.of_nat (length front)) by lia.
  by rewrite Nat2Z.id, drop_app_length.
Qed.

(** The tolerance [_should_stop] applies: [0.] when [tol] is [None]. *)
Definition tolerance self : py_float :=
  match tol self with None => f_zero | Some t => t end.

(** The largest of a score and the scores after it, as [max] finds it. *)
Definition best_of c rest : py_float :=
  fold_left (fun m y => if f_gt y m then y else m) rest c.

(** The test [_should_stop] makes on a window of scores that starts with
    [c]. *)
Definition no_improvement self c rest : bool :=
  f_ge c (f_mul (best_of c rest) (f_sub f_one (tolerance self))).

(** [_should_stop] on a history that is not empty and not shorter than a
    non-zero patience. *)
Lemma should_stop_long self scores :
  scores <> [] ->
  (max_no_improvement self = 0
   \/ max_no_improvement self <= Z.of_nat (length scores))%Z ->
  _should_stop self scores
  = (candidate ← index scores (- max_no_improvement self);
     best ← py_max (slice_from scores (- max_no_improvement self));
     Ok (f_ge candidate (f_mul best (f_sub f_one (tolerance self))))).
Proof.
  intros Hne Hk. unfold _should_stop.
  destruct scores as [|s scores]; [done|]. simpl length.
  change (S (length scores) =? 0)%nat with false. simpl orb.
  destruct (Z.eqb_spec (max_no_improvement self) 0) as [H0|H0]; simpl.
  - done.
  - destruct (Z.ltb_spec (Z.of_nat (S (length scores)))
                         (max_no_improvement self)); [|done].
    simpl in Hk. lia.
Qed.

(** X1: With a patience of [k > 0] rounds and at least [k] scores, the rule
    looks at the last [k] scores only: it compares the oldest of them with
    the best of them, whatever came before. *)
Theorem should_stop_window self older c rest :
  max_no_improvement self = Z.of_nat (S (length rest)) ->
  _should_stop self (older ++ c :: rest) = Ok (no_improvement self c rest).
Proof.
  intros Hk. rewrite should_stop_long.
  - rewrite Hk, index_from_end, slice_from_end. reflexivity.
  - by destruct older.
  - right. rewrite Hk, length_app. simpl. lia.
Qed.


(** A negative patience [-m] makes the rule read [scores[m]]: on a history
    of at most [m] scores that is [IndexError]. *)
Lemma should_stop_negative self scores :
  (max_no_improvement self < 0)%Z -> scores <> [] ->
  (Z.of_nat (length scores) <= - max_no_improvement self)%Z ->
  _should_stop self scores = Raise IndexError.
Proof.
  intros Hk Hne Hlen. rewrite should_stop_long; [|done|right; lia].
  unfold index.
  destruct (Z.ltb_spec (- max_no_improvement self) 0); [lia|].
  destruct (Z.ltb_spec (- max_no_improvement self) 0); [lia|].
  destruct (Z.leb_spec (Z.of_nat (length scores))
                       (- max_no_improvement self)); [done|lia].
Qed.

(** With a patience that is not negative the rule always answers. *)
Lemma should_stop_answers self scores :
  (0 <= max_no_improvement self)%Z ->
  exists b, _should_stop self scores = Ok b.
Proof.
  intros Hk.
  destruct (decide (scores = [])) as [->|Hne]; [by exists false|].
  destruct (Z.eq_dec (max_no_improvement self) 0%Z) as [H0|H0].
  { destruct scores as [|c rest]; [done|].
    rewrite should_stop_long; [|done|by left]. rewrite H0. by eexists. }
  destruct (Z.lt_ge_cases (Z.of_nat (length scores)) (max_no_improvement self))
    as [Hlt|Hge].
  { exists false. by apply should_stop_short. }
  set (k := Z.to_nat (max_no_improvement self)).
  assert (0 < k <= length scores) as Hkn by lia.
  rewrite <- (take_drop (length scores - k) scores).
  assert (length (drop (length scores - k) scores) = k) as Hd
    by (rewrite length_drop; lia).
  destruct (drop (length scores - k) scores) as [|c rest]; [simpl in Hd; lia|].
  simpl in Hd.
  rewrite should_stop_long.
  - replace (max_no_improvement self) with (Z.of_nat (S (length rest))) by lia.
    rewrite index_from_end, slice_from_end. by eexists.
  - by destruct (take _ scores).
  - right. rewrite length_app. simpl. lia.
Qed.

(** ** The boosting loop *)

(** The score of an ensemble on a monitoring set. *)
Definition score_after (sc : Scorer) (ys Xs : ndarray)
    (predictors : list Predictor) : py_float :=
  _score_func sc ys (_predict_binned predictors Xs).

(** The scores of the first [t] ensembles of a run that starts with the
    predictors [before] and adds those of [new] one by one. *)
Definition score_history (sc : Scorer) (ys Xs : ndarray)
    (before new : list Predictor) (t : nat) : list py_float :=
  (fun j => score_after sc ys Xs (before ++ take j new)) <$> seq 0 t.

(** The same on the validation set, when there is one. *)
Definition validation_history self (sc : Scorer) (Xv yv : option ndarray)
    (before new : list Predictor) (t : nat) : list py_float :=
  match validation_split self, Xv, yv with
  | Some _, Some Xv, Some yv => score_history sc yv Xv before new t
  | _, _, _ => []
  end.

(** What is left of the gradients [g] after the in-place updates of the
    rounds that made [predictors]. *)
Definition residuals (M g : ndarray) (predictors : list Predictor) : ndarray :=
  fold_left (fun g p => np_isub g (predict_binned p M)) predictors g.

(** The scores the stopping rule reads. *)
Definition monitored self st : list py_float :=
  match validation_split self with
  | Some _ => validation_scores_ st
  | None => train_scores_ st
  end.

(** The validation pair is there when [validation_split] asks for it. *)
Definition validation_ready self (Xv yv : option ndarray) : Prop :=
  validation_split self = None \/ (is_Some Xv /\ is_Some yv).

Lemma score_history_S sc ys Xs before p new t :
  score_history sc ys Xs before (p :: new) (S t)
  = score_after sc ys Xs before
    :: score_history sc ys Xs (before ++ [p]) new t.
Proof.
  unfold score_history. simpl. rewrite app_nil_r. f_equal.
  rewrite <- fmap_S_seq, <- list_fmap_compose. apply list_fmap_ext.
  intros _ j _. simpl. by rewrite <- app_assoc.
Qed.

Lemma score_history_1 sc ys Xs before :
  score_history sc ys Xs before [] 1 = [score_after sc ys Xs before].
Proof. unfold score_history. simpl. by rewrite app_nil_r. Qed.

Lemma validation_history_S self sc Xv yv before p new t :
  validation_history self sc Xv yv before (p :: new) (S t)
  = validation_history self sc Xv yv before [] 1
    ++ validation_history self sc Xv yv (before ++ [p]) new t.
Proof.
  unfold validation_history.
  destruct (validation_split self), Xv, yv; try done.
  by rewrite score_history_S, score_history_1.
Qed.

(** One call of [_stopping_criterion]: a training score is appended, a
    validation score too when there is a validation set, nothing else
    changes, and the answer is that of [_should_stop] on the scores
    monitored. *)
Lemma stopping_criterion_spec self sc Xs ys Xv yv st :
  validation_ready self Xv yv ->
  let r := _stopping_criterion self sc Xs ys Xv yv st in
  predictors_ r.1 = predictors_ st
  /\ gradients r.1 = gradients st
  /\ grower_calls r.1 = grower_calls st
  /\ n_iter_ r.1 = n_iter_ st
  /\ train_scores_ r.1
     = train_scores_ st ++ [score_after sc ys Xs (predictors_ st)]
  /\ validation_scores_ r.1
     = validation_scores_ st
       ++ validation_history self sc Xv yv (predictors_ st) [] 1
  /\ r.2 = _should_stop self (monitored self r.1)
  /\ exists x, monitored self r.1 = monitored self st ++ [x].
Proof.
  intros Hv. unfold _stopping_criterion, monitored, validation_history.
  destruct (validation_split self) as [v|] eqn:Hvs.
  - destruct Hv as [|[[xv ->] [yv' ->]]]; [congruence|]. simpl.
    unfold score_history, score_after. simpl. rewrite app_nil_r.
    split_and!; try reflexivity. by eexists.
  - simpl. rewrite app_nil_r. split_and!; try reflexivity. by eexists.
Qed.

(** How a run of the loop ended after [m] growers: all [n] rounds were run,
    or round [m] stopped it, by the rule's answer or by its exception. *)
Definition loop_end self (st' : fit_state) (e : option exn) (n m t : nat)
    : Prop :=
  (t = m /\ m = n /\ e = None)
  \/ (t = S m /\ m < n
      /\ ((e = None /\ _should_stop self (monitored self st') = Ok true)
          \/ exists x, e = Some x
                       /\ _should_stop self (monitored self st') = Raise x)).

(** The trace of a run of the loop from any state: the growers it built,
    one predictor each, the gradients left, the scores appended (one per
    round entered, for the ensemble that round found), where [n_iter_]
    stands, and how it ended. *)
Lemma boosting_loop_trace self sc bm M hess Xs ys Xv yv :
  validation_ready self Xv yv ->
  forall rounds st,
  let r := boosting_loop self sc bm M hess Xs ys Xv yv rounds st in
  exists (new_calls : list TreeGrowerCall) (t : nat),
    let new := predictor_of bm <$> new_calls in
    grower_calls r.1 = grower_calls st ++ new_calls
    /\ predictors_ r.1 = predictors_ st ++ new
    /\ gradients r.1 = residuals M (gradients st) new
    /\ train_scores_ r.1
       = train_scores_ st ++ score_history sc ys Xs (predictors_ st) new t
    /\ validation_scores_ r.1
       = validation_scores_ st
         ++ validation_history self sc Xv yv (predictors_ st) new t
    /\ loop_end self r.1 r.2 (length rounds) (length new_calls) t
    /\ (match t with
        | 0 => n_iter_ r.1 = n_iter_ st
        | S t' => rounds !! t' = Some (n_iter_ r.1)
        end)
    /\ (exists more, monitored self r.1 = monitored self st ++ more
                     /\ length more = t)
    /\ (forall j, j < length new_calls ->
          _should_stop self
            (take (length (monitored self st) + S j) (monitored self r.1))
          = Ok false).
Proof.
  intros Hv rounds. induction rounds as [|d rounds IH]; intros st.
  - exists [], 0. simpl. rewrite !app_nil_r.
    assert (validation_history self sc Xv yv (predictors_ st) [] 0 = [])
      as -> by (unfold validation_history; by repeat case_match).
    rewrite app_nil_r. split_and!; try done.
    + by left.
    + exists []. by rewrite app_nil_r.
    + intros j Hj. lia.
  - simpl boosting_loop.
    pose proof (stopping_criterion_spec self sc Xs ys Xv yv (set_n_iter d st)
                  Hv) as (Hp & Hg & Hc & Hn & Ht & Hvl & Hres & x & Hmon).
    destruct (_stopping_criterion self sc Xs ys Xv yv (set_n_iter d st))
      as [st1 res]. simpl in Hp, Hg, Hc, Hn, Ht, Hvl, Hres, Hmon.
    change (monitored self (set_n_iter d st)) with (monitored self st)
      in Hmon.
    assert (exists b, (res = Ok false /\ b = true)
                      \/ (res <> Ok false /\ b = false)) as (b & Hb).
    { destruct res as [[]|]; [exists false|exists true|exists false];
        [right|left|right]; done. }
    destruct Hb as [[-> ->]|[Hstop ->]].
    + destruct (IH (boosting_round self bm M hess st1))
        as (new_calls & t & Hc' & Hp' & Hg' & Ht' & Hv' & Hend & Hn'
            & (more & Hmore & Hlen) & Hno).
      simpl in Hc', Hp', Hg', Ht', Hv'.
      change (monitored self (boosting_round self bm M hess st1))
        with (monitored self st1) in Hmore, Hno.
      set (call := {| tg_X_binned := M; tg_gradients := gradients st1;
                      tg_hessians := hess; tg_kwargs := grower_kwargs self |})
        in *.
      exists (call :: new_calls), (S t). cbn zeta.
      rewrite fmap_cons. fold (predictor_of bm call) in Hp', Hg', Ht', Hv'.
      split_and!.
      * by rewrite Hc', Hc, <- app_assoc.
      * by rewrite Hp', Hp, <- app_assoc.
      * by rewrite Hg', Hg.
      * by rewrite Ht', Ht, Hp, score_history_S, <- app_assoc.
      * by rewrite Hv', Hvl, Hp, validation_history_S, <- app_assoc.
      * destruct Hend as [(-> & Hm & He)|(-> & Hm & He)]; [left|right];
          simpl; split_and!; try done; lia.
      * simpl. destruct t as [|t']; [|done].
        rewrite Hn'. simpl. by rewrite Hn.
      * exists (x :: more). rewrite Hmore, Hmon, <- app_assoc. simpl.
        split; [done|]. by rewrite Hlen.
      * intros [|j] Hj.
        -- rewrite Hmore, Hmon, <- app_assoc.
           replace (length (monitored self st) + 1)
             with (length (monitored self st ++ [x]))
             by (rewrite length_app; simpl; lia).
           rewrite app_assoc, take_app_length, <- Hmon. by symmetry.
        -- simpl in Hj. rewrite <- (Hno j ltac:(lia)). do 2 f_equal.
           rewrite Hmon, length_app. simpl. lia.
    + exists [], 1.
      assert ((let '(st2, res) := (st1, res) in
               match res with
               | Ok true => (st2, None)
               | Ok false =>
                   boosting_loop self sc bm M hess Xs ys Xv yv rounds
                     (boosting_round self bm M hess st2)
               | Raise e => (st2, Some e)
               end)
              = (st1, match res with Raise e => Some e | _ => None end))
        as -> by (destruct res as [[]|]; done).
      simpl. rewrite !app_nil_r.
      split_and!; try done.
      * by rewrite Ht, score_history_1.
      * right. split; [done|]. split; [lia|].
        rewrite <- Hres.
        destruct res as [[]|e]; [left|done|right]; [done|by exists e].
      * by rewrite Hn.
      * by exists [x].
      * intros j Hj. lia.
Qed.

(** ** A run of [fit] *)

Lemma fit_validation_ready self X y :
  let L := fit_setup self X y in
  validation_ready self (X_binned_val L) (y_val L).
Proof.
  intros L. destruct (fit_setup_validation self X y) as [_ HS].
  unfold validation_ready. fold L in HS.
  destruct (validation_split self); [right; apply HS; eauto|by left].
Qed.

(** The trace of [fit]: the loop's trace from the state [fit] starts it
    in. *)
Lemma fit_trace self X y :
  let L := fit_setup self X y in
  let r := fit self X y in
  exists t : nat,
    predictors_ r.1 = predictor_of (bin_mapper_ L) <$> grower_calls r.1
    /\ gradients r.1
       = residuals (X_binned_train L) (np_copy (asarray_float32 (y_train L)))
                   (predictors_ r.1)
    /\ train_scores_ r.1
       = score_history (scorer L) (y_small_train L) (X_binned_small_train L)
                       [] (predictors_ r.1) t
    /\ validation_scores_ r.1
       = validation_history self (scorer L) (X_binned_val L) (y_val L)
                            [] (predictors_ r.1) t
    /\ loop_end self r.1 r.2 (Z.to_nat (max_iter self))
                (length (predictors_ r.1)) t
    /\ (match t with 0 => True | S t' => n_iter_ r.1 = Z.of_nat t' end)
    /\ length (monitored self r.1) = t
    /\ (forall j, j < length (predictors_ r.1) ->
          _should_stop self (take (S j) (monitored self r.1)) = Ok false).
Proof.
  intros L r.
  pose proof (fit_setup_initial self X y) as (Hp0 & Ht0 & Hv0 & Hc0).
  fold L in Hp0, Ht0, Hv0, Hc0.
  assert (gradients (initial L) = np_copy (asarray_float32 (y_train L)))
    as Hg0 by (unfold L, fit_setup; repeat case_match; reflexivity).
  assert (monitored self (initial L) = []) as Hm0
    by (unfold monitored; by destruct (validation_split self)).
  destruct (boosting_loop_trace self (scorer L) (bin_mapper_ L)
              (X_binned_train L) (hessians L) (X_binned_small_train L)
              (y_small_train L) (X_binned_val L) (y_val L)
              (fit_validation_ready self X y)
              (range (max_iter self)) (initial L))
    as (new_calls & t & Hc & Hp & Hg & Ht & Hv & Hend & Hn
        & (more & Hmore & Hlen) & Hno).
  change (boosting_loop self (scorer L) (bin_mapper_ L) (X_binned_train L)
            (hessians L) (X_binned_small_train L) (y_small_train L)
            (X_binned_val L) (y_val L) (range (max_iter self)) (initial L))
    with r in *.
  rewrite Hc0 in Hc. rewrite Hp0 in Hp, Ht, Hv. rewrite Ht0 in Ht.
  rewrite Hv0 in Hv. rewrite Hg0 in Hg. rewrite Hm0 in Hmore, Hno.
  simpl in Hc, Hp, Ht, Hv, Hmore, Hno.
  assert (length (range (max_iter self)) = Z.to_nat (max_iter self)) as Hr
    by (unfold range; by rewrite length_fmap, length_seq).
  rewrite Hr in Hend.
  exists t. rewrite Hp, Hc, length_fmap. split_and!; try done.
  - destruct t as [|t']; [done|].
    unfold range in Hn. rewrite list_lookup_fmap in Hn.
    destruct (seq 0 (Z.to_nat (max_iter self)) !! t') as [k|] eqn:Hk;
      [|done].
    apply lookup_seq in Hk as [-> _]. simpl in Hn. by simplify_eq.
  - by rewrite Hmore.
Qed.


(** X4: The gradients [fit] is left with are the float32 copy of the training
    targets less the prediction of every predictor kept, on the training
    matrix, in the order the predictors were made. *)
Theorem fit_residual_gradients self X y :
  let L := fit_setup self X y in
  gradients (fit self X y).1
  = fold_left (fun g p => np_isub g (predict_binned p (X_binned_train L)))
              (predictors_ (fit self X y).1)
              (np_copy (asarray_float32 (y_train L))).
Proof.
  intros L. by destruct (fit_trace self X y) as (t & _ & Hg & _).
Qed.


(** X6: Without a validation split no validation score is recorded.  With one,
    every round entered records a validation score beside its training
    score: the score, on the held-out pair, of the sum of the predictors
    made before that round. *)
Theorem fit_validation_scores self X y :
  let L := fit_setup self X y in
  let r := fit self X y in
  (validation_split self = None -> validation_scores_ r.1 = [])
  /\ (is_Some (validation_split self) ->
      length (validation_scores_ r.1) = length (train_scores_ r.1)
      /\ exists Xv yv,
           X_binned_val L = Some Xv /\ y_val L = Some yv
           /\ forall j s, validation_scores_ r.1 !! j = Some s ->
                s = _score_func (scorer L) yv
                      (_predict_binned (take j (predictors_ r.1)) Xv)).
Proof.
  intros L r.
  destruct (fit_trace self X y) as (t & _ & _ & Ht & Hv & _).
  fold L r in Ht, Hv. rewrite Ht, Hv. unfold validation_history. split.
  - by intros ->.
  - intros [v Hvs]. rewrite Hvs.
    destruct (fit_setup_validation self X y) as [_ HS].
    destruct HS as [[Xv HXv] [yv Hyv]]; [by rewrite Hvs|].
    fold L in HXv, Hyv. rewrite HXv, Hyv. split.
    + unfold score_history. by rewrite !length_fmap.
    + exists Xv, yv. split; [done|]. split; [done|].
      intros j s Hj. unfold score_history in Hj.
      rewrite list_lookup_fmap in Hj.
      destruct (seq 0 t !! j) as [k|] eqn:Hk; [|done].
      apply lookup_seq in Hk as [-> _]. simpl in Hj. by simplify_eq.
Qed.

(** X7: [fit] goes on as long as the rule says no: it answered [False] on the
    scores of every round that grew a tree, and a run that ends without an
    exception and short of [max_iter] trees ends on its answer [True]. *)
Theorem fit_stops_on_rule self X y :
  let r := fit self X y in
  (forall j, j < length (predictors_ r.1) ->
     _should_stop self (take (S j) (monitored self r.1)) = Ok false)
  /\ (r.2 = None ->
      length (predictors_ r.1) = Z.to_nat (max_iter self)
      \/ (length (predictors_ r.1) < Z.to_nat (max_iter self)
          /\ length (monitored self r.1) = S (length (predictors_ r.1))
          /\ _should_stop self (monitored self r.1) = Ok true)).
Proof.
  intros r.
  destruct (fit_trace self X y) as (t & _ & _ & _ & _ & Hend & _ & Hlen & Hno).
  fold r in Hend, Hlen, Hno. split; [exact Hno|].
  intros He.
  destruct Hend as [(_ & Hm & _)|(Ht & Hm & [[_ Hs]|(x & Hx & _)])].
  - by left.
  - right. by rewrite Hlen, Ht.
  - congruence.
Qed.

(** ** The report on binning

    Between [fit_transform] and the loop, when [verbose] is set, [fit]
    prints a report: [duration = toc - tic], [troughput = X.nbytes /
    duration], for the two readings [tic] and [toc] of [time()] around the
    binning.  The division raises [ZeroDivisionError] when the readings
    coincide.  The other prints of [fit] and of [_stopping_criterion]
    divide by a constant or by an [n_iter_ > 0]. *)

(** The exceptions of [fit]'s own code: that of the report and those of the
    loop. *)
Inductive fit_exn :=
| ZeroDivisionError
| LoopError (e : exn).

(** [x == 0] for a float: [x >= 0] and [0 >= x]. *)
Definition is_zero (x : py_float) : bool := f_ge x f_zero && f_ge f_zero x.

(** The report: [None] when it returns. *)
Definition binning_report self (tic toc : py_float) : option fit_exn :=
  if (verbose self =? 0)%Z then None
  else
    let duration := f_sub toc tic in
    if is_zero duration then Some ZeroDivisionError else None.

(** The exception that ends [fit], if any: the report comes before the
    loop, so its exception leaves the loop unrun. *)
Definition fit_outcome self (X y : ndarray) (tic toc : py_float)
    : option fit_exn :=
  match binning_report self tic toc with
  | Some e => Some e
  | None => LoopError <$> (fit self X y).2
  end.

(** With a patience that is not negative, the loop raises nothing. *)
Lemma loop_never_raises self X y :
  (0 <= max_no_improvement self)%Z -> (fit self X y).2 = None.
Proof.
  intros Hk.
  destruct (fit_trace self X y) as (t & _ & _ & _ & _ & Hend & _).
  destruct Hend as [(_ & _ & He)|(_ & _ & [[He _]|(x & _ & Hx)])];
    [done|done|].
  destruct (should_stop_answers self (monitored self (fit self X y).1) Hk)
    as [b Hb].
  congruence.
Qed.

(** X8: With a patience that is not negative, the only exception [fit]
    raises of its own is the [ZeroDivisionError] of the report: it raises
    nothing when [verbose] is off or the two readings of the clock differ,
    and that error when [verbose] is on and they coincide. *)
Theorem fit_never_raises self X y (tic toc : py_float) :
  (0 <= max_no_improvement self)%Z ->
  fit_outcome self X y tic toc = binning_report self tic toc
  /\ (verbose self = 0%Z -> fit_outcome self X y tic toc = None)
  /\ (is_zero (f_sub toc tic) = false -> fit_outcome self X y tic toc = None)
  /\ (verbose self <> 0%Z -> is_zero (f_sub toc tic) = true ->
      fit_outcome self X y tic toc = Some ZeroDivisionError).
Proof.
  intros Hk. unfold fit_outcome, binning_report.
  rewrite (loop_never_raises self X y Hk). split_and!.
  - destruct (verbose self =? 0)%Z; [done|].
    by destruct (is_zero (f_sub toc tic)).
  - by intros ->.
  - intros ->. by destruct (verbose self =? 0)%Z.
  - intros Hv ->. by destruct (Z.eqb_spec (verbose self) 0).
Qed.

(** With a negative patience and at least one round to run, the loop raises
    [IndexError] in its first round. *)
Lemma loop_negative_patience self X y :
  (max_no_improvement self < 0)%Z -> (1 <= max_iter self)%Z ->
  let r := fit self X y in
  r.2 = Some IndexError
  /\ predictors_ r.1 = [] /\ grower_calls r.1 = []
  /\ length (train_scores_ r.1) = 1.
Proof.
  intros Hk Hi r.
  destruct (fit_trace self X y)
    as (t & Hp & _ & Ht & _ & Hend & _ & Hlen & Hno).
  fold r in Hp, Ht, Hend, Hlen, Hno.
  assert (predictors_ r.1 = []) as Hnil.
  { destruct (predictors_ r.1) as [|p ps] eqn:Hps; [done|].
    specialize (Hno 0 ltac:(simpl; lia)).
    assert (1 <= length (monitored self r.1)) as Hpos
      by (destruct Hend as [(Ht' & _)|(Ht' & _)]; simpl in Ht'; lia).
    rewrite should_stop_negative in Hno; [done|done| |].
    - intros Htake. apply (f_equal length) in Htake.
      rewrite length_take in Htake. change (length []) with 0 in Htake. lia.
    - rewrite length_take. lia. }
  rewrite Hnil in *. simpl in Hend.
  assert (grower_calls r.1 = []) as Hcalls.
  { symmetry in Hp. apply fmap_nil_inv in Hp. exact Hp. }
  destruct Hend as [(_ & Hm & _)|(-> & _ & Hs)]; [lia|].
  assert (_should_stop self (monitored self r.1) = Raise IndexError) as Hraise.
  { apply should_stop_negative; [done| |lia].
    intros Hmon. rewrite Hmon in Hlen. done. }
  rewrite Hraise in Hs.
  destruct Hs as [[_ Hs]|(x & -> & Hx)]; [done|].
  simplify_eq. split_and!; try done.
  rewrite Ht. unfold score_history. by rewrite length_fmap.
Qed.

(** X9: With a negative patience and at least one round to run, a [fit]
    whose report does not fail raises [IndexError] in its first round: one
    training score is recorded and no tree is grown. *)
Theorem fit_negative_patience self X y (tic toc : py_float) :
  (max_no_improvement self < 0)%Z -> (1 <= max_iter self)%Z ->
  binning_report self tic toc = None ->
  let r := fit self X y in
  fit_outcome self X y tic toc = Some (LoopError IndexError)
  /\ predictors_ r.1 = [] /\ grower_calls r.1 = []
  /\ length (train_scores_ r.1) = 1.
Proof.
  intros Hk Hi Hreport r.
  destruct (loop_negative_patience self X y Hk Hi) as (He & Hrest).
  split; [|exact Hrest].
  unfold fit_outcome. by rewrite Hreport, He.
Qed.



(** With no round to run, the loop records nothing and raises nothing. *)
Lemma loop_without_rounds self X y :
  (max_iter self <= 0)%Z ->
  let r := fit self X y in
  r.2 = None /\ predictors_ r.1 = [] /\ grower_calls r.1 = []
  /\ train_scores_ r.1 = [] /\ validation_scores_ r.1 = []
  /\ forall X', predict r.1 X' = np_zeros_float32 (shape0 X').
Proof.
  intros Hi r.
  destruct (fit_trace self X y) as (t & Hp & _ & Ht & Hv & Hend & _).
  fold r in Hp, Ht, Hv, Hend.
  assert (length (predictors_ r.1) = 0 /\ t = 0 /\ r.2 = None)
    as (Hm & -> & He).
  { destruct Hend as [(-> & Hm & He)|(_ & Hm & _)]; [|lia].
    split_and!; [lia|lia|done]. }
  destruct (predictors_ r.1) as [|p ps] eqn:Hps; [|done].
  symmetry in Hp. apply fmap_nil_inv in Hp.
  split_and!; try done.
  - rewrite Hv. unfold validation_history. by repeat case_match.
  - intros X'. unfold predict. by rewrite Hps.
Qed.

(** X12: With no round to run ([max_iter <= 0]), a [fit] whose report does
    not fail records nothing and raises nothing, and [predict] then returns
    the array of zeros. *)
Theorem fit_without_rounds self X y (tic toc : py_float) :
  (max_iter self <= 0)%Z ->
  binning_report self tic toc = None ->
  let r := fit self X y in
  fit_outcome self X y tic toc = None
  /\ predictors_ r.1 = [] /\ grower_calls r.1 = []
  /\ train_scores_ r.1 = [] /\ validation_scores_ r.1 = []
  /\ forall X', predict r.1 X' = np_zeros_float32 (shape0 X').
Proof.
  intros Hi Hreport r.
  destruct (loop_without_rounds self X y Hi) as (He & Hrest).
  split; [|exact Hrest].
  unfold fit_outcome. by rewrite Hreport, He.
Qed.


Lemma rounds_from_lookup self bm M hess calls :
  forall g (j : nat) (call : TreeGrowerCall),
  rounds_from self bm M hess g calls -> calls !! j = Some call ->
  tg_gradients call = residuals M g (predictor_of bm <$> take j calls).
Proof.
  induction calls as [|c0 calls IH]; intros g j call Hr Hj; [done|].
  destruct Hr as [Hc0 Hr]. destruct j as [|j]; simpl in *.
  - simplify_eq. reflexivity.
  - by apply IH.
Qed.

(** X14: The grower of round [j] is fitted to the training targets less the
    predictions, on the training matrix, of the [j] predictors made before
    it. *)
Theorem fit_grower_gradients self X y (j : nat) (call : TreeGrowerCall) :
  let L := fit_setup self X y in
  grower_calls (fit self X y).1 !! j = Some call ->
  tg_gradients call
  = fold_left (fun g p => np_isub g (predict_binned p (X_binned_train L)))
              (take j (predictors_ (fit self X y).1))
              (np_copy (asarray_float32 (y_train L))).
Proof.
  intros L Hj.
  destruct (fit_log self X y) as [Hr _]. fold L in Hr.
  destruct (fit_trace self X y) as (t & Hp & _). fold L in Hp.
  rewrite Hp, <- fmap_take.
  rewrite (rounds_from_lookup _ _ _ _ _ _ _ _ Hr Hj).
  f_equal. unfold L, fit_setup. repeat case_match; reflexivity.
Qed.

End EstimatorRuns.

(** ** More small runs

    The data and stand-ins of [toy], with other settings of the patience,
    the tolerance and the number of rounds. *)

Module toy_runs.
Import py gradient_boosting.

(** [max_iter] rounds with a patience of [max_no_improvement] and the
    tolerance [tol], no validation split. *)
Definition machine (max_iter max_no_improvement : Z) (tol : option Q)
    : @GradientBoostingMachine toy.externals :=
  @__init__ toy.externals (1 # 10)%Q max_iter 31 None 0%Q 256
    max_no_improvement None "neg_mse" tol 0 0%nat.

(** A patience of two rounds. *)
Definition two_rounds := machine 3 2 (Some (1 # 10000000)%Q).


(** A negative patience. *)
Definition negative_patience := machine 3 (-1) (Some (1 # 10000000)%Q).

(** A patience of one round and no tolerance: the first score is compared
    with itself. *)
Definition hasty := machine 3 1 None.

(** No round at all. *)
Definition idle := machine 0 5 (Some (1 # 10000000)%Q).

(** The small run with [verbose] on. *)
Definition chatty : @GradientBoostingMachine toy.externals :=
  @__init__ toy.externals (1 # 10)%Q 3 31 None 0%Q 256 5 None "neg_mse"
    (Some (1 # 10000000)%Q) 1 0%nat.

(** A quarter of the data held out, five rounds, a patience of two. *)
Definition validated : @GradientBoostingMachine toy.externals :=
  @__init__ toy.externals (1 # 10)%Q 5 31 None 0%Q 256 2 (Some (1 # 4)%Q)
    "neg_mse" (Some (1 # 10000000)%Q) 0 0%nat.

Definition fit_of (self : @GradientBoostingMachine toy.externals) :=
  @fit toy.externals toy.grower self toy.X toy.y.

End toy_runs.

(** With a patience of two only the last two scores count: after 3 and 2
    the rule says stop, whatever the first score was. *)
Lemma should_stop_window_witness :
  gradient_boosting.max_no_improvement toy_runs.two_rounds = 2%Z
  /\ @gradient_boosting._should_stop toy.externals toy_runs.two_rounds
       [1; 3; 2]%Q = py.Ok true
  /\ @gradient_boosting._should_stop toy.externals toy_runs.two_rounds
       [5; 3; 2]%Q = py.Ok true.
Proof.
  split; [reflexivity|]. split.
  - exact (@should_stop_window toy.externals toy_runs.two_rounds
             [1%Q] 3%Q [2%Q] eq_refl).
  - exact (@should_stop_window toy.externals toy_runs.two_rounds
             [5%Q] 3%Q [2%Q] eq_refl).
Defined.


(** The second grower of the small run is fitted to the targets less the
    first predictor's one half. *)
Lemma fit_grower_gradients_witness :
  exists call,
    gradient_boosting.grower_calls toy.run.1 !! 1 = Some call
    /\ @gradient_boosting.tg_gradients toy.externals call
       = [1 # 2; 3 # 2; 5 # 2; 7 # 2]%Q.
Proof.
  destruct (lookup_lt_is_Some_2 (gradient_boosting.grower_calls toy.run.1) 1)
    as [call Hj].
  { change (length (gradient_boosting.grower_calls toy.run.1)) with 3. lia. }
  exists call. split; [exact Hj|].
  exact (eq_trans
           (@fit_grower_gradients toy.externals toy.grower toy.self toy.X
              toy.y 1 call Hj) eq_refl).
Defined.

(** The validated run stops in its third round, short of its five rounds,
    on the rule's answer. *)
Lemma fit_stops_on_rule_witness :
  (toy_runs.fit_of toy_runs.validated).2 = None
  /\ length (gradient_boosting.predictors_
               (toy_runs.fit_of toy_runs.validated).1) = 2
  /\ @gradient_boosting._should_stop toy.externals toy_runs.validated
       (gradient_boosting.validation_scores_
          (toy_runs.fit_of toy_runs.validated).1) = py.Ok true.
Proof.
  destruct (@fit_stops_on_rule toy.externals toy.grower toy_runs.validated
              toy.X toy.y) as [_ Hend].
  split; [reflexivity|]. split; [reflexivity|].
  destruct (Hend eq_refl) as [Hall|(_ & _ & Hstop)].
  - vm_compute in Hall. discriminate Hall.
  - exact Hstop.
Defined.

(** The small run raises nothing, whatever the clock reads; with [verbose]
    on it raises [ZeroDivisionError] when the clock reads the same time
    twice, and nothing when it does not. *)
Lemma fit_never_raises_witness :
  (0 <= gradient_boosting.max_no_improvement toy_runs.chatty)%Z
  /\ @fit_outcome toy.externals toy.grower toy.self toy.X toy.y 1%Q 1%Q = None
  /\ @fit_outcome toy.externals toy.grower toy_runs.chatty toy.X toy.y
       1%Q 1%Q = Some ZeroDivisionError
  /\ @fit_outcome toy.externals toy.grower toy_runs.chatty toy.X toy.y
       1%Q 2%Q = None.
Proof.
  assert (0 <= gradient_boosting.max_no_improvement toy_runs.chatty)%Z as Hk
    by (simpl; lia).
  split; [exact Hk|].
  destruct (@fit_never_raises toy.externals toy.grower toy.self toy.X toy.y
              1%Q 1%Q Hk) as (_ & Hquiet & _).
  destruct (@fit_never_raises toy.externals toy.grower toy_runs.chatty toy.X
              toy.y 1%Q 1%Q Hk) as (_ & _ & _ & Hsame).
  destruct (@fit_never_raises toy.externals toy.grower toy_runs.chatty toy.X
              toy.y 1%Q 2%Q Hk) as (_ & _ & Hdiffer & _).
  split; [exact (Hquiet eq_refl)|].
  split; [apply Hsame; [discriminate|reflexivity]|].
  exact (Hdiffer eq_refl).
Defined.

(** With a patience of -1 the run ends in its first round. *)
Lemma fit_negative_patience_witness :
  (gradient_boosting.max_no_improvement toy_runs.negative_patience < 0)%Z
  /\ (1 <= gradient_boosting.max_iter toy_runs.negative_patience)%Z
  /\ @binning_report toy.externals toy_runs.negative_patience 1%Q 1%Q = None
  /\ @fit_outcome toy.externals toy.grower toy_runs.negative_patience
       toy.X toy.y 1%Q 1%Q = Some (LoopError py.IndexError)
  /\ gradient_boosting.predictors_
       (toy_runs.fit_of toy_runs.negative_patience).1 = [].
Proof.
  assert (gradient_boosting.max_no_improvement toy_runs.negative_patience
          < 0)%Z as Hk by (simpl; lia).
  assert (1 <= gradient_boosting.max_iter toy_runs.negative_patience)%Z
    as Hi by (simpl; lia).
  split; [exact Hk|]. split; [exact Hi|]. split; [reflexivity|].
  destruct (@fit_negative_patience toy.externals toy.grower
              toy_runs.negative_patience toy.X toy.y 1%Q 1%Q Hk Hi eq_refl)
    as (He & Hp & _).
  split; [exact He|exact Hp].
Defined.



(** A machine with no round to run predicts zero. *)
Lemma fit_without_rounds_witness :
  (gradient_boosting.max_iter toy_runs.idle <= 0)%Z
  /\ @binning_report toy.externals toy_runs.idle 1%Q 1%Q = None
  /\ @fit_outcome toy.externals toy.grower toy_runs.idle toy.X toy.y
       1%Q 1%Q = None
  /\ @gradient_boosting.predict toy.externals toy.grower
       (toy_runs.fit_of toy_runs.idle).1 [7; 8]%Q = [0; 0]%Q.
Proof.
  assert (gradient_boosting.max_iter toy_runs.idle <= 0)%Z as Hi
    by (simpl; lia).
  split; [exact Hi|]. split; [reflexivity|].
  destruct (@fit_without_rounds toy.externals toy.grower toy_runs.idle
              toy.X toy.y 1%Q 1%Q Hi eq_refl)
    as (He & _ & _ & _ & _ & Hpred).
  split; [exact He|]. exact (Hpred [7; 8]%Q).
Defined.


(** * Results on the splitting model *)

Section SplittingFacts.
Import splitting.
Implicit Types (ctx : SplittingContext) (R : list nat) (e : hist_entry).
Implicit Types (hist : histogram) (si : SplitInfo).

(** ** Sums of rationals *)

Lemma Qsum_app (l k : list Q) : (Qsum (l ++ k) == Qsum l + Qsum k)%Q.
Proof.
  unfold Qsum. induction l as [|x l IH]; simpl; [ring|]. rewrite IH. ring.
Qed.

Lemma Qsum_snoc (l : list Q) (x : Q) : (Qsum (l ++ [x]) == Qsum l + x)%Q.
Proof. rewrite Qsum_app. unfold Qsum. simpl. ring. Qed.

Lemma Qsum_perm (l k : list Q) : l ≡ₚ k -> (Qsum l == Qsum k)%Q.
Proof.
  unfold Qsum. induction 1 as [|x l k _ IH|x y l|l k m _ IH1 _ IH2]; simpl.
  - reflexivity.
  - rewrite IH. reflexivity.
  - ring.
  - rewrite IH1. exact IH2.
Qed.

Lemma Qsum_const (A : Type) (f : A -> Q) (c : Q) (l : list A) :
  (forall x, x ∈ l -> (f x == c)%Q) ->
  (Qsum (f <$> l) == Qnat (length l) * c)%Q.
Proof.
  unfold Qsum, Qnat. induction l as [|x l IH]; intros Hc.
  - simpl. ring.
  - cbn [fmap list_fmap foldr length]. rewrite IH, (Hc x).
    + rewrite Nat2Z.inj_succ, <- Z.add_1_r, inject_Z_plus. ring.
    + left.
    + intros z Hz. apply Hc. by right.
Qed.

Lemma Qnat_plus (n m : nat) : (Qnat (n + m) == Qnat n + Qnat m)%Q.
Proof. unfold Qnat. rewrite Nat2Z.inj_add, inject_Z_plus. reflexivity. Qed.

Lemma Qnat_le (n m : nat) : n <= m -> (Qnat n <= Qnat m)%Q.
Proof. intros. unfold Qnat. rewrite <- Zle_Qle. lia. Qed.

Lemma Qnat_lt (n m : nat) : n < m -> (Qnat n < Qnat m)%Q.
Proof. intros. unfold Qnat. rewrite <- Zlt_Qlt. lia. Qed.

Lemma Qnat_minus (n m : nat) : m <= n -> (Qnat (n - m) == Qnat n - Qnat m)%Q.
Proof.
  intros. unfold Qnat. rewrite Nat2Z.inj_sub by done.
  unfold Z.sub. rewrite inject_Z_plus, inject_Z_opp. reflexivity.
Qed.

Lemma Qltb_lt (x y : Q) : Qltb x y = true <-> (x < y)%Q.
Proof.
  unfold Qltb. rewrite negb_true_iff, <- not_true_iff_false, Qle_bool_iff.
  split; [apply Qnot_le_lt|apply Qlt_not_le].
Qed.

#[local] Instance Qltb_proper : Proper (Qeq ==> Qeq ==> eq) Qltb.
Proof. intros x x' Hx y y' Hy. unfold Qltb. by rewrite Hx, Hy. Qed.

(** ** Equality up to the value of the rationals *)

Definition entry_equiv (e1 e2 : hist_entry) : Prop :=
  count e1 = count e2
  /\ (sum_gradients e1 == sum_gradients e2)%Q
  /\ (sum_hessians e1 == sum_hessians e2)%Q.

Definition stats_equiv (s1 s2 : stats) : Prop :=
  s_count s1 = s_count s2
  /\ (s_gradient s1 == s_gradient s2)%Q
  /\ (s_hessian s1 == s_hessian s2)%Q.

Definition split_equiv (s1 s2 : SplitInfo) : Prop :=
  (gain s1 == gain s2)%Q
  /\ feature_idx s1 = feature_idx s2
  /\ bin_idx s1 = bin_idx s2
  /\ (gradient_left s1 == gradient_left s2)%Q
  /\ (hessian_left s1 == hessian_left s2)%Q
  /\ (gradient_right s1 == gradient_right s2)%Q
  /\ (hessian_right s1 == hessian_right s2)%Q
  /\ n_samples_left s1 = n_samples_left s2
  /\ n_samples_right s1 = n_samples_right s2.

#[local] Instance entry_equiv_equivalence : Equivalence entry_equiv.
Proof.
  split.
  - intros e. by repeat split.
  - intros e1 e2 (?&?&?). by repeat split.
  - intros e1 e2 e3 (?&H1&H2) (?&H3&H4). repeat split; [congruence| |].
    + by rewrite H1. + by rewrite H2.
Qed.

#[local] Instance stats_equiv_equivalence : Equivalence stats_equiv.
Proof.
  split.
  - intros e. by repeat split.
  - intros e1 e2 (?&?&?). by repeat split.
  - intros e1 e2 e3 (?&H1&H2) (?&H3&H4). repeat split; [congruence| |].
    + by rewrite H1. + by rewrite H2.
Qed.

#[local] Instance split_equiv_equivalence : Equivalence split_equiv.
Proof.
  split.
  - intros s. by repeat split.
  - intros s1 s2 (?&?&?&?&?&?&?&?&?). by repeat split.
  - intros s1 s2 s3 (G1&?&?&A1&B1&C1&D1&?&?) (G2&?&?&A2&B2&C2&D2&?&?).
    repeat split; try congruence.
    + by rewrite G1. + by rewrite A1. + by rewrite B1.
    + by rewrite C1. + by rewrite D1.
Qed.

(** ** Histograms by direct accumulation *)

(** The entry that the samples [l] of one bin add up to. *)
Definition entry_of ctx (l : list nat) : hist_entry :=
  {| count := length l;
     sum_gradients := Qsum (gradient_of ctx <$> l);
     sum_hessians :=
       if constant_hessian ctx then 0%Q else Qsum (hessian_of ctx <$> l) |}.

Lemma build_histogram_snoc ctx f R i :
  build_histogram ctx f (R ++ [i])
  = alter (bump ctx i) (bin_of ctx f i) (build_histogram ctx f R).
Proof. unfold build_histogram. by rewrite fold_left_app. Qed.

Lemma build_histogram_length ctx f R :
  length (build_histogram ctx f R) = n_bins ctx.
Proof.
  induction R as [|i R IH] using rev_ind.
  - apply length_replicate.
  - rewrite build_histogram_snoc, length_alter. exact IH.
Qed.

Lemma bump_entry_of ctx e l i :
  entry_equiv e (entry_of ctx l) ->
  entry_equiv (bump ctx i e) (entry_of ctx (l ++ [i])).
Proof.
  intros (Hc & Hg & Hh). unfold entry_of, bump in *. simpl in *.
  repeat split; simpl.
  - rewrite length_app, Hc. simpl. lia.
  - rewrite fmap_app. cbn [fmap list_fmap]. by rewrite Qsum_snoc, Hg.
  - destruct (constant_hessian ctx); [exact Hh|].
    rewrite fmap_app. cbn [fmap list_fmap]. by rewrite Qsum_snoc, Hh.
Qed.

(** Each bin of a node's histogram holds the count and the sums of the
    node's samples that fall in it. *)
Lemma build_histogram_lookup ctx f R b :
  b < n_bins ctx ->
  exists e, build_histogram ctx f R !! b = Some e
            /\ entry_equiv e (entry_of ctx (filter (fun i => bin_of ctx f i = b) R)).
Proof.
  intros Hb. induction R as [|i R (e & He & Heq)] using rev_ind.
  - exists empty_entry. split.
    + unfold build_histogram. simpl. by apply lookup_replicate_2.
    + unfold entry_of. simpl. by destruct (constant_hessian ctx).
  - rewrite build_histogram_snoc, filter_app.
    destruct (decide (bin_of ctx f i = b)) as [Hi|Hi].
    + exists (bump ctx i e). split.
      * rewrite Hi, list_lookup_alter_eq, He. done.
      * rewrite filter_cons_True by done. simpl. by apply bump_entry_of.
    + exists e. split.
      * by rewrite list_lookup_alter_ne.
      * rewrite filter_cons_False by done. simpl. by rewrite app_nil_r.
Qed.

(** The sum of a histogram over its bins, as one entry. *)
Definition hist_sum hist : hist_entry :=
  {| count := sum_list_with count hist;
     sum_gradients := Qsum (sum_gradients <$> hist);
     sum_hessians := Qsum (sum_hessians <$> hist) |}.

Definition hist_equiv (h1 h2 : histogram) : Prop := Forall2 entry_equiv h1 h2.

#[local] Instance hist_equiv_equivalence : Equivalence hist_equiv.
Proof.
  unfold hist_equiv. split.
  - intros h. induction h; constructor; [reflexivity|done].
  - intros h1 h2 H. induction H; constructor; [by symmetry|done].
  - intros h1 h2 h3 H. revert h3.
    induction H as [|e1 e2 h1 h2 He _ IH]; intros h3 H3; [done|].
    inversion H3 as [|? e3 ? h3' He3 H3']; subst. constructor.
    + by transitivity e2.
    + by apply IH.
Qed.

Lemma hist_sum_snoc hist e :
  entry_equiv (hist_sum (hist ++ [e]))
    {| count := count (hist_sum hist) + count e;
       sum_gradients := (sum_gradients (hist_sum hist) + sum_gradients e)%Q;
       sum_hessians := (sum_hessians (hist_sum hist) + sum_hessians e)%Q |}.
Proof.
  unfold hist_sum. repeat split; simpl.
  - rewrite sum_list_with_app. simpl. lia.
  - rewrite fmap_app. apply Qsum_snoc.
  - rewrite fmap_app. apply Qsum_snoc.
Qed.

Lemma hist_sum_proper h1 h2 :
  hist_equiv h1 h2 -> entry_equiv (hist_sum h1) (hist_sum h2).
Proof.
  induction 1 as [|e1 e2 h1 h2 (Hc & Hg & Hh) _ (IHc & IHg & IHh)].
  - reflexivity.
  - unfold hist_sum in *. cbn in *. repeat split; cbn.
    + lia.
    + unfold Qsum in *. cbn. by rewrite Hg, IHg.
    + unfold Qsum in *. cbn. by rewrite Hh, IHh.
Qed.

Lemma entry_of_app ctx (l k : list nat) :
  entry_equiv (entry_of ctx (l ++ k))
    {| count := count (entry_of ctx l) + count (entry_of ctx k);
       sum_gradients :=
         (sum_gradients (entry_of ctx l) + sum_gradients (entry_of ctx k))%Q;
       sum_hessians :=
         (sum_hessians (entry_of ctx l) + sum_hessians (entry_of ctx k))%Q |}.
Proof.
  unfold entry_of. repeat split; simpl.
  - apply length_app.
  - rewrite fmap_app. apply Qsum_app.
  - destruct (constant_hessian ctx); [ring|]. rewrite fmap_app. apply Qsum_app.
Qed.

Lemma entry_of_perm ctx (l k : list nat) :
  l ≡ₚ k -> entry_equiv (entry_of ctx l) (entry_of ctx k).
Proof.
  intros Hp. unfold entry_of. repeat split; simpl.
  - by rewrite Hp.
  - apply Qsum_perm. by rewrite Hp.
  - destruct (constant_hessian ctx); [reflexivity|].
    apply Qsum_perm. by rewrite Hp.
Qed.

Lemma filter_lt_S (g : nat -> nat) (n : nat) (l : list nat) :
  filter (fun i => g i < S n) l
  ≡ₚ filter (fun i => g i < n) l ++ filter (fun i => g i = n) l.
Proof.
  induction l as [|x l IH]; [done|].
  destruct (lt_eq_lt_dec (g x) n) as [[Hlt|Heq]|Hgt].
  - rewrite (filter_cons_True (fun i => g i < S n)) by lia.
    rewrite (filter_cons_True (fun i => g i < n)) by lia.
    rewrite (filter_cons_False (fun i => g i = n)) by lia.
    simpl. by rewrite IH.
  - rewrite (filter_cons_True (fun i => g i < S n)) by lia.
    rewrite (filter_cons_False (fun i => g i < n)) by lia.
    rewrite (filter_cons_True (fun i => g i = n)) by lia.
    rewrite IH. by rewrite Permutation_middle.
  - rewrite (filter_cons_False (fun i => g i < S n)) by lia.
    rewrite (filter_cons_False (fun i => g i < n)) by lia.
    rewrite (filter_cons_False (fun i => g i = n)) by lia.
    exact IH.
Qed.

Lemma filter_none (P : nat -> Prop) `{!forall i, Decision (P i)} (l : list nat) :
  (forall i, i ∈ l -> ~ P i) -> filter P l = [].
Proof.
  induction l as [|x l IH]; intros Hn; [done|].
  rewrite filter_cons_False by (apply Hn; left).
  apply IH. intros i Hi. apply Hn. by right.
Qed.

Lemma filter_all (P : nat -> Prop) `{!forall i, Decision (P i)} (l : list nat) :
  (forall i, i ∈ l -> P i) -> filter P l = l.
Proof.
  induction l as [|x l IH]; intros Hn; [done|].
  rewrite filter_cons_True by (apply Hn; left).
  f_equal. apply IH. intros i Hi. apply Hn. by right.
Qed.

(** The first [n] bins of a node's histogram add up to the node's samples
    whose bin is below [n]. *)
Lemma hist_sum_take_build ctx f R n :
  n <= n_bins ctx ->
  entry_equiv (hist_sum (take n (build_histogram ctx f R)))
              (entry_of ctx (filter (fun i => bin_of ctx f i < n) R)).
Proof.
  induction n as [|n IH]; intros Hn.
  - rewrite take_0, filter_none by (intros; lia).
    unfold hist_sum, entry_of. simpl. by destruct (constant_hessian ctx).
  - destruct (build_histogram_lookup ctx f R n) as (e & He & Heq); [lia|].
    rewrite (take_S_r _ _ _ He), hist_sum_snoc.
    rewrite (entry_of_perm _ _ _ (filter_lt_S (bin_of ctx f) n R)), entry_of_app.
    destruct (IH ltac:(lia)) as (IHc & IHg & IHh).
    destruct Heq as (Hc & Hg & Hh).
    repeat split; simpl in *.
    + lia. + by rewrite IHg, Hg. + by rewrite IHh, Hh.
Qed.

(** Samples whose bins all have an entry in the histograms. *)
Definition bins_in_range ctx R : Prop :=
  forall f i, f < n_features ctx -> i ∈ R -> bin_of ctx f i < n_bins ctx.

Lemma hist_sum_build ctx f R :
  (forall i, i ∈ R -> bin_of ctx f i < n_bins ctx) ->
  entry_equiv (hist_sum (build_histogram ctx f R)) (entry_of ctx R).
Proof.
  intros Hwf.
  pose proof (hist_sum_take_build ctx f R (n_bins ctx) ltac:(lia)) as H.
  rewrite take_ge in H by (rewrite build_histogram_length; lia).
  by rewrite filter_all in H.
Qed.

(** ** The subtraction trick *)

Lemma entry_sub_of ctx (ep es : hist_entry) (node sibling parent : list nat) :
  parent ≡ₚ node ++ sibling ->
  entry_equiv ep (entry_of ctx parent) ->
  entry_equiv es (entry_of ctx sibling) ->
  entry_equiv (entry_sub ep es) (entry_of ctx node).
Proof.
  intros Hp (Hc & Hg & Hh) (Hc' & Hg' & Hh').
  destruct (entry_of_perm ctx _ _ Hp) as (Pc & Pg & Ph).
  destruct (entry_of_app ctx node sibling) as (Ac & Ag & Ah).
  unfold entry_sub. repeat split; cbn in *.
  - lia.
  - rewrite Hg, Hg', Pg, Ag. ring.
  - rewrite Hh, Hh', Ph, Ah. ring.
Qed.

Lemma histogram_subtract_build ctx f (node sibling parent : list nat) :
  parent ≡ₚ node ++ sibling ->
  hist_equiv
    (histogram_subtract (build_histogram ctx f parent)
                        (build_histogram ctx f sibling))
    (build_histogram ctx f node).
Proof.
  intros Hp. apply Forall2_same_length_lookup. split.
  - unfold histogram_subtract.
    rewrite length_zip_with, !build_histogram_length. lia.
  - intros b e1 e2 H1 H2.
    assert (b < n_bins ctx) as Hb.
    { apply lookup_lt_Some in H2. by rewrite build_histogram_length in H2. }
    destruct (build_histogram_lookup ctx f parent b Hb) as (ep & Hep & Eqp).
    destruct (build_histogram_lookup ctx f sibling b Hb) as (es & Hes & Eqs).
    destruct (build_histogram_lookup ctx f node b Hb) as (en & Hen & Eqn).
    unfold histogram_subtract in H1.
    rewrite lookup_zip_with, Hep, Hes in H1. simpl in H1. simplify_eq.
    rewrite Eqn. eapply entry_sub_of; [|exact Eqp|exact Eqs].
    rewrite Hp, filter_app. done.
Qed.

Lemma build_histograms_length ctx R :
  length (build_histograms ctx R) = n_features ctx.
Proof. unfold build_histograms. by rewrite length_fmap, length_seq. Qed.

Lemma build_histograms_lookup ctx R f :
  f < n_features ctx ->
  build_histograms ctx R !! f = Some (build_histogram ctx f R).
Proof.
  intros Hf. unfold build_histograms.
  rewrite list_lookup_fmap, lookup_seq_lt by done. done.
Qed.

(** Histograms by subtraction are, bin by bin, the histograms by direct
    accumulation. *)
Lemma subtraction_histograms ctx (node sibling parent : list nat) :
  parent ≡ₚ node ++ sibling ->
  Forall2 hist_equiv
    (zip_with histogram_subtract (build_histograms ctx parent)
                                 (build_histograms ctx sibling))
    (build_histograms ctx node).
Proof.
  intros Hp. apply Forall2_same_length_lookup. split.
  - rewrite length_zip_with, !build_histograms_length. lia.
  - intros f h1 h2 H1 H2.
    assert (f < n_features ctx) as Hf.
    { apply lookup_lt_Some in H2. by rewrite build_histograms_length in H2. }
    rewrite lookup_zip_with, !build_histograms_lookup in H1 by done.
    rewrite build_histograms_lookup in H2 by done. simpl in H1. simplify_eq.
    by apply histogram_subtract_build.
Qed.

(** ** The scan as a fold over candidates *)

(** One side of a split, from the sum of the bins it covers. *)
Definition left_of_entry ctx e : stats :=
  {| s_count := count e;
     s_gradient := sum_gradients e;
     s_hessian :=
       if constant_hessian ctx
       then (Qnat (count e) * constant_hessian_value ctx)%Q
       else sum_hessians e |}.

(** The running prefix once the first [n] bins are in. *)
Definition prefix ctx hist (n : nat) : stats :=
  fold_left (add_entry ctx) (take n hist) zero_stats.

(** The candidate at boundary bin [b] of feature [f]. *)
Definition cand_at ctx (total : stats) (f : nat) hist (b : nat)
    : option SplitInfo :=
  candidate ctx f b total (prefix ctx hist (S b)).

(** The candidates of a feature, in scan order, and those of all features
    from feature [f] on. *)
Definition feature_cands ctx (total : stats) (f : nat) hist
    : list (option SplitInfo) :=
  cand_at ctx total f hist
  <$> seq 0 (Nat.min (default 0 (n_bins_per_feature ctx !! f) - 1)
                     (length hist)).

Fixpoint node_cands ctx (total : stats) (hists : list histogram) (f : nat)
    : list (option SplitInfo) :=
  match hists with
  | [] => []
  | hist :: hists =>
      feature_cands ctx total f hist ++ node_cands ctx total hists (S f)
  end.

Lemma left_of_entry_proper ctx e1 e2 :
  entry_equiv e1 e2 -> stats_equiv (left_of_entry ctx e1) (left_of_entry ctx e2).
Proof.
  intros (Hc & Hg & Hh). unfold left_of_entry. repeat split; cbn; try done.
  destruct (constant_hessian ctx); [by rewrite Hc|done].
Qed.

Lemma add_entry_proper ctx s1 s2 e1 e2 :
  stats_equiv s1 s2 -> entry_equiv e1 e2 ->
  stats_equiv (add_entry ctx s1 e1) (add_entry ctx s2 e2).
Proof.
  intros (Sc & Sg & Sh) (Hc & Hg & Hh). unfold add_entry. repeat split; cbn.
  - lia.
  - by rewrite Sg, Hg.
  - destruct (constant_hessian ctx); [by rewrite Sh, Hc|by rewrite Sh, Hh].
Qed.

Lemma fold_add_entry_proper ctx h1 h2 : hist_equiv h1 h2 -> forall s1 s2,
  stats_equiv s1 s2 ->
  stats_equiv (fold_left (add_entry ctx) h1 s1) (fold_left (add_entry ctx) h2 s2).
Proof.
  induction 1 as [|e1 e2 h1 h2 He _ IH]; intros s1 s2 Hs; [done|].
  simpl. apply IH. by apply add_entry_proper.
Qed.

Lemma prefix_proper ctx h1 h2 n :
  hist_equiv h1 h2 -> stats_equiv (prefix ctx h1 n) (prefix ctx h2 n).
Proof.
  intros Hh. unfold prefix. apply fold_add_entry_proper; [|done].
  by apply Forall2_take.
Qed.

(** The running prefix is the sum of the bins scanned. *)
Lemma prefix_hist_sum ctx hist n :
  stats_equiv (prefix ctx hist n) (left_of_entry ctx (hist_sum (take n hist))).
Proof.
  unfold prefix. generalize (take n hist). clear hist n.
  intros entries. induction entries as [|e entries IH] using rev_ind.
  - unfold left_of_entry, hist_sum, zero_stats, Qnat. cbn. repeat split; cbn;
      try done. destruct (constant_hessian ctx); [ring|done].
  - rewrite fold_left_app. cbn [fold_left].
    rewrite (add_entry_proper _ _ _ _ _ IH (reflexivity e)).
    rewrite (left_of_entry_proper _ _ _ (hist_sum_snoc entries e)).
    unfold add_entry, left_of_entry. repeat split; cbn; try done.
    destruct (constant_hessian ctx); [|done]. rewrite Qnat_plus. ring.
Qed.

Lemma left_of_entry_of ctx (l : list nat) :
  stats_equiv (left_of_entry ctx (entry_of ctx l)) (node_stats ctx l).
Proof.
  unfold left_of_entry, entry_of, node_stats. repeat split; cbn; try done.
  by destruct (constant_hessian ctx).
Qed.

(** On a node's own histogram, the prefix holds the node's samples whose bin
    is below [n]. *)
Lemma prefix_build ctx f R n :
  n <= n_bins ctx ->
  stats_equiv (prefix ctx (build_histogram ctx f R) n)
              (node_stats ctx (filter (fun i => bin_of ctx f i < n) R)).
Proof.
  intros Hn. rewrite prefix_hist_sum.
  rewrite (left_of_entry_proper _ _ _ (hist_sum_take_build ctx f R n Hn)).
  apply left_of_entry_of.
Qed.

Lemma complement_proper t1 t2 l1 l2 :
  stats_equiv t1 t2 -> stats_equiv l1 l2 ->
  stats_equiv (complement t1 l1) (complement t2 l2).
Proof.
  intros (Tc & Tg & Th) (Lc & Lg & Lh). unfold complement.
  repeat split; cbn; [lia|by rewrite Tg, Lg|by rewrite Th, Lh].
Qed.

Lemma split_gain_proper ctx l1 l2 r1 r2 t1 t2 :
  stats_equiv l1 l2 -> stats_equiv r1 r2 -> stats_equiv t1 t2 ->
  (split_gain ctx l1 r1 t1 == split_gain ctx l2 r2 t2)%Q.
Proof.
  intros (_ & Lg & Lh) (_ & Rg & Rh) (_ & Tg & Th). unfold split_gain.
  by rewrite Lg, Lh, Rg, Rh, Tg, Th.
Qed.

Lemma candidate_proper ctx f b t1 t2 l1 l2 :
  stats_equiv t1 t2 -> stats_equiv l1 l2 ->
  option_Forall2 split_equiv (candidate ctx f b t1 l1) (candidate ctx f b t2 l2).
Proof.
  intros Ht Hl. pose proof (complement_proper _ _ _ _ Ht Hl) as Hr.
  unfold candidate.
  destruct Hl as (Lc & Lg & Lh). destruct Hr as (Rc & Rg & Rh).
  rewrite <- Lc, <- Rc, <- (Qltb_proper _ _ Lh _ _ (reflexivity _)),
    <- (Qltb_proper _ _ Rh _ _ (reflexivity _)).
  match goal with |- context [if ?c then _ else _] => destruct c end;
    constructor.
  repeat split; cbn; try done.
  apply split_gain_proper; try done; by repeat split.
Qed.

Lemma better_proper (b1 b2 c1 c2 : option SplitInfo) :
  option_Forall2 split_equiv b1 b2 -> option_Forall2 split_equiv c1 c2 ->
  option_Forall2 split_equiv (better b1 c1) (better b2 c2).
Proof.
  intros Hb Hc. destruct Hc as [c1 c2 Hc|]; [|done].
  destruct Hb as [b1 b2 Hb|]; simpl; [|by constructor].
  pose proof Hb as (Gb & _). pose proof Hc as (Gc & _).
  rewrite <- (Qltb_proper _ _ Gb _ _ Gc).
  by destruct (Qltb (gain b1) (gain c1)); constructor.
Qed.

Lemma scan_bins_proper ctx f t1 t2 h1 h2 : hist_equiv h1 h2 ->
  stats_equiv t1 t2 -> forall b l1 l2 best1 best2,
  stats_equiv l1 l2 -> option_Forall2 split_equiv best1 best2 ->
  option_Forall2 split_equiv (scan_bins ctx f t1 h1 b l1 best1)
                             (scan_bins ctx f t2 h2 b l2 best2).
Proof.
  intros Hh Ht. induction Hh as [|e1 e2 h1 h2 He _ IH];
    intros b l1 l2 best1 best2 Hl Hbest; [done|].
  simpl. pose proof (add_entry_proper ctx _ _ _ _ Hl He) as Hl'.
  apply IH; [done|]. apply better_proper; [done|]. by apply candidate_proper.
Qed.

Lemma scan_features_proper ctx t1 t2 hs1 hs2 : Forall2 hist_equiv hs1 hs2 ->
  stats_equiv t1 t2 -> forall f best1 best2,
  option_Forall2 split_equiv best1 best2 ->
  option_Forall2 split_equiv (scan_features ctx t1 hs1 f best1)
                             (scan_features ctx t2 hs2 f best2).
Proof.
  intros Hh Ht. induction Hh as [|h1 h2 hs1 hs2 He _ IH];
    intros f best1 best2 Hbest; [done|].
  simpl. apply IH. unfold scan_feature.
  apply scan_bins_proper; try done. by apply Forall2_take.
Qed.

(** [finalize] makes the same decision on equal inputs: the sentinel on both
    sides, or two equal splits above the minimum gain. *)
Lemma finalize_proper ctx best1 best2 :
  option_Forall2 split_equiv best1 best2 ->
  (finalize ctx best1 = no_split /\ finalize ctx best2 = no_split)
  \/ (exists s1 s2,
        best1 = Some s1 /\ best2 = Some s2
        /\ finalize ctx best1 = s1 /\ finalize ctx best2 = s2
        /\ split_equiv s1 s2 /\ (min_gain_to_split ctx < gain s2)%Q).
Proof.
  intros [s1 s2 Hs|]; simpl; [|by left].
  pose proof Hs as (Hg & _).
  rewrite <- (Qleb_comp _ _ Hg _ _ (reflexivity _)).
  destruct (Qle_bool (gain s1) (min_gain_to_split ctx)) eqn:Hle; [by left|].
  right. exists s1, s2. split_and!; try done.
  rewrite <- Hg. apply Qnot_le_lt. intros H%Qle_bool_iff. congruence.
Qed.

Lemma scan_bins_fold ctx f total entries : forall b0 left0 best,
  scan_bins ctx f total entries b0 left0 best
  = fold_left better
      ((fun k => candidate ctx f (b0 + k) total
                   (fold_left (add_entry ctx) (take (S k) entries) left0))
       <$> seq 0 (length entries)) best.
Proof.
  induction entries as [|e entries IH]; intros b0 left0 best; [done|].
  cbn [scan_bins length seq fmap list_fmap fold_left take].
  rewrite Nat.add_0_r, take_0. cbn [fold_left]. rewrite IH.
  f_equal. rewrite <- fmap_S_seq, <- list_fmap_compose.
  apply list_fmap_ext. intros _ k _. simpl. by rewrite Nat.add_succ_r.
Qed.

Lemma scan_feature_fold ctx total best f hist :
  scan_feature ctx total best f hist
  = fold_left better (feature_cands ctx total f hist) best.
Proof.
  unfold scan_feature, feature_cands. rewrite scan_bins_fold, length_take.
  f_equal. apply list_fmap_ext. intros i k Hk.
  apply lookup_seq in Hk as [-> Hk]. unfold cand_at, prefix. simpl.
  rewrite take_take. do 3 f_equal. lia.
Qed.

Lemma scan_features_fold ctx total hists : forall f best,
  scan_features ctx total hists f best
  = fold_left better (node_cands ctx total hists f) best.
Proof.
  induction hists as [|hist hists IH]; intros f best; [done|].
  simpl. by rewrite IH, scan_feature_fold, fold_left_app.
Qed.

(** Where a candidate of a node comes from. *)
Lemma node_cands_elem ctx total hists c : forall f0,
  Some c ∈ node_cands ctx total hists f0 ->
  exists k hist b,
    hists !! k = Some hist
    /\ b < default 0 (n_bins_per_feature ctx !! (f0 + k)) - 1
    /\ b < length hist
    /\ cand_at ctx total (f0 + k) hist b = Some c.
Proof.
  induction hists as [|hist hists IH]; intros f0 Hc; [by apply elem_of_nil in Hc|].
  simpl in Hc. apply elem_of_app in Hc as [Hc|Hc].
  - unfold feature_cands in Hc. apply list_elem_of_fmap in Hc as (b & Hb & Hin).
    apply elem_of_seq in Hin. exists 0, hist, b. rewrite Nat.add_0_r.
    repeat split; [lia|lia|done].
  - destruct (IH _ Hc) as (k & h & b & Hk & Hb & Hl & Hcand).
    exists (S k), h, b. rewrite Nat.add_succ_r. by repeat split.
Qed.

(** ** Keeping the first largest gain *)

Lemma fold_better_inv (cands : list (option SplitInfo)) : forall best,
  fold_left better cands best = best
  \/ exists c, fold_left better cands best = Some c /\ Some c ∈ cands.
Proof.
  induction cands as [|cand cands IH]; intros best; [by left|].
  simpl. destruct (IH (better best cand)) as [Heq|(c & Hc & Hin)].
  - rewrite Heq. destruct cand as [c|]; [|by left].
    destruct best as [b|]; simpl.
    + destruct (Qltb (gain b) (gain c)); [right|by left].
      exists c. split; [done|left].
    + right. exists c. split; [done|left].
  - right. exists c. split; [done|by right].
Qed.

Lemma fold_better_keep (cands : list (option SplitInfo)) (c : SplitInfo) :
  (forall c', Some c' ∈ cands -> (gain c' <= gain c)%Q) ->
  fold_left better cands (Some c) = Some c.
Proof.
  induction cands as [|cand cands IH]; intros Hle; [done|].
  simpl. destruct cand as [c'|]; simpl.
  - destruct (Qltb (gain c) (gain c')) eqn:Hlt.
    + apply Qltb_lt in Hlt. specialize (Hle c' ltac:(left)). lra.
    + apply IH. intros c'' Hin. apply Hle. by right.
  - apply IH. intros c'' Hin. apply Hle. by right.
Qed.

(** A candidate that beats every earlier one and is not beaten by any later
    one is the result. *)
Lemma fold_better_first_max (pre post : list (option SplitInfo))
    (c : SplitInfo) :
  (forall c', Some c' ∈ pre -> (gain c' < gain c)%Q) ->
  (forall c', Some c' ∈ post -> (gain c' <= gain c)%Q) ->
  fold_left better (pre ++ Some c :: post) None = Some c.
Proof.
  intros Hpre Hpost. rewrite fold_left_app. simpl.
  destruct (fold_better_inv pre None) as [->|(b & -> & Hb)]; simpl.
  - by apply fold_better_keep.
  - specialize (Hpre b Hb). apply Qltb_lt in Hpre. rewrite Hpre.
    by apply fold_better_keep.
Qed.

(** What [finalize] returns: the sentinel, or a candidate whose gain exceeds
    the minimum gain. *)
Lemma finalize_inv ctx (cands : list (option SplitInfo)) :
  let si := finalize ctx (fold_left better cands None) in
  si = no_split
  \/ (Some si ∈ cands /\ (min_gain_to_split ctx < gain si)%Q).
Proof.
  simpl. destruct (fold_better_inv cands None) as [->|(c & -> & Hc)];
    [by left|].
  simpl. destruct (Qle_bool (gain c) (min_gain_to_split ctx)) eqn:Hle;
    [by left|right].
  split; [done|]. apply Qnot_le_lt. intros H%Qle_bool_iff. congruence.
Qed.

Lemma finalize_first_max ctx (pre post : list (option SplitInfo))
    (c : SplitInfo) :
  (forall c', Some c' ∈ pre -> (gain c' < gain c)%Q) ->
  (forall c', Some c' ∈ post -> (gain c' <= gain c)%Q) ->
  (min_gain_to_split ctx < gain c)%Q ->
  finalize ctx (fold_left better (pre ++ Some c :: post) None) = c.
Proof.
  intros Hpre Hpost Hmin. rewrite fold_better_first_max by done. simpl.
  destruct (Qle_bool (gain c) (min_gain_to_split ctx)) eqn:Hle; [|done].
  apply Qle_bool_iff in Hle. lra.
Qed.

Lemma finalize_no_split ctx (cands : list (option SplitInfo)) :
  (forall c, Some c ∈ cands -> (gain c <= min_gain_to_split ctx)%Q) ->
  finalize ctx (fold_left better cands None) = no_split.
Proof.
  intros Hle. destruct (finalize_inv ctx cands) as [H|[Hin Hlt]]; [done|].
  specialize (Hle _ Hin). lra.
Qed.

(** ** Direct search against the subtraction method *)

(** The totals read off a node's first histogram are the node's totals. *)
Lemma histogram_stats_build ctx R hist :
  (forall i, i ∈ R -> bin_of ctx 0 i < n_bins ctx) ->
  hist_equiv hist (build_histogram ctx 0 R) ->
  stats_equiv (histogram_stats ctx (length R) hist) (node_stats ctx R).
Proof.
  intros Hwf Hh.
  destruct (hist_sum_proper _ _ Hh) as (_ & Hg & Hs).
  destruct (hist_sum_build ctx 0 R Hwf) as (_ & Hg' & Hs').
  unfold histogram_stats, node_stats. repeat split; cbn in *.
  - by rewrite Hg, Hg'.
  - destruct (constant_hessian ctx); [done|]. by rewrite Hs, Hs'.
Qed.

Lemma subtraction_scan ctx (node sibling parent : list nat) :
  parent ≡ₚ node ++ sibling -> bins_in_range ctx node ->
  let hists := zip_with histogram_subtract (build_histograms ctx parent)
                        (build_histograms ctx sibling) in
  option_Forall2 split_equiv
    (scan_features ctx
       (histogram_stats ctx (length node) (default [] (hists !! 0)))
       hists 0 None)
    (scan_features ctx (node_stats ctx node) (build_histograms ctx node) 0 None).
Proof.
  intros Hp Hwf hists.
  pose proof (subtraction_histograms ctx node sibling parent Hp) as Hh.
  fold hists in Hh.
  destruct (decide (n_features ctx = 0)) as [H0|H0].
  - assert (build_histograms ctx node = []) as Hnil.
    { apply length_zero_iff_nil. by rewrite build_histograms_length. }
    rewrite Hnil in *. apply Forall2_nil_inv_r in Hh. rewrite Hh. constructor.
  - apply scan_features_proper; [done| |constructor].
    assert (0 < n_features ctx) as Hf by lia.
    pose proof (build_histograms_lookup ctx node 0 Hf) as Hl.
    destruct (Forall2_lookup_r _ _ _ _ _ Hh Hl) as (h0 & Hh0 & Heq).
    rewrite Hh0. simpl. apply histogram_stats_build; [|done].
    intros i Hi. by apply Hwf.
Qed.

(** The subtraction method returns the split of the direct method: the
    sentinel on both sides, or two equal splits. *)
Lemma subtraction_split ctx (node sibling parent : list nat) :
  parent ≡ₚ node ++ sibling -> bins_in_range ctx node ->
  let sub := find_node_split_subtraction ctx node
               (find_node_split ctx parent).2 (find_node_split ctx sibling).2 in
  let direct := find_node_split ctx node in
  (sub.1 = no_split /\ direct.1 = no_split)
  \/ (split_equiv sub.1 direct.1
      /\ Some direct.1 ∈ node_cands ctx (node_stats ctx node)
                           (build_histograms ctx node) 0
      /\ (min_gain_to_split ctx < gain direct.1)%Q).
Proof.
  intros Hp Hwf. cbn.
  destruct (finalize_proper ctx _ _ (subtraction_scan ctx _ _ _ Hp Hwf))
    as [[H1 H2]|(s1 & s2 & _ & Hb2 & Hf1 & Hf2 & Heq & Hlt)]; [by left|right].
  rewrite Hf1, Hf2. split; [done|]. split; [|done].
  rewrite scan_features_fold in Hb2.
  destruct (fold_better_inv (node_cands ctx (node_stats ctx node)
                               (build_histograms ctx node) 0) None)
    as [E|(c & E & Hc)]; rewrite E in Hb2; [done|].
  by simplify_eq.
Qed.

(** In exact arithmetic (the sums of this model do not round, those of a
    float implementation do): for a node whose samples, with its sibling's,
    make up the parent's, the histograms of the subtraction method equal
    those of direct accumulation bin by bin, in count, gradient sum and
    hessian sum, whether the hessian is constant or not, and the two methods
    return the same split. *)
Theorem subtraction_agrees ctx (node sibling parent : list nat) :
  parent ≡ₚ node ++ sibling -> bins_in_range ctx node ->
  let sub := find_node_split_subtraction ctx node
               (find_node_split ctx parent).2 (find_node_split ctx sibling).2 in
  let direct := find_node_split ctx node in
  Forall2 hist_equiv sub.2 direct.2 /\ split_equiv sub.1 direct.1.
Proof.
  intros Hp Hwf sub direct. split.
  - by apply subtraction_histograms.
  - destruct (subtraction_split ctx _ _ _ Hp Hwf) as [[H1 H2]|(Heq & _)].
    + fold sub in H1. fold direct in H2. by rewrite H1, H2.
    + exact Heq.
Qed.

(** ** Sums over the bins of a histogram (C4) *)

(** In exact arithmetic: over all bins, each histogram of a node adds up to
    the node's sample count, gradient sum and hessian sum (zero under a
    constant hessian), be it accumulated directly or derived by
    subtraction; so the totals of any two features agree. *)
Theorem histogram_totals ctx R (sibling parent : list nat) :
  bins_in_range ctx R -> parent ≡ₚ R ++ sibling ->
  let direct := (find_node_split ctx R).2 in
  let sub := (find_node_split_subtraction ctx R
                (find_node_split ctx parent).2
                (find_node_split ctx sibling).2).2 in
  (forall f hist, direct !! f = Some hist \/ sub !! f = Some hist ->
     sum_list_with count hist = length R
     /\ (Qsum (sum_gradients <$> hist) == Qsum (gradient_of ctx <$> R))%Q
     /\ (Qsum (sum_hessians <$> hist)
         == if constant_hessian ctx then 0
            else Qsum (hessian_of ctx <$> R))%Q)
  /\ (forall f f' hist hist',
        direct !! f = Some hist \/ sub !! f = Some hist ->
        direct !! f' = Some hist' \/ sub !! f' = Some hist' ->
        sum_list_with count hist = sum_list_with count hist'
        /\ (Qsum (sum_gradients <$> hist) == Qsum (sum_gradients <$> hist'))%Q
        /\ (Qsum (sum_hessians <$> hist) == Qsum (sum_hessians <$> hist'))%Q).
Proof.
  intros Hwf Hp direct sub.
  assert (forall f hist, direct !! f = Some hist \/ sub !! f = Some hist ->
            entry_equiv (hist_sum hist) (entry_of ctx R)) as Hall.
  { intros f hist Hl.
    assert (exists hd, direct !! f = Some hd /\ hist_equiv hist hd)
      as (hd & Hd & Heq).
    { destruct Hl as [Hl|Hl]; [by exists hist|].
      pose proof (subtraction_histograms ctx R sibling parent Hp) as Hh.
      destruct (Forall2_lookup_l _ _ _ _ _ Hh Hl) as (hd & Hd & Heq).
      by exists hd. }
    assert (f < n_features ctx) as Hf.
    { apply lookup_lt_Some in Hd. unfold direct in Hd. cbn in Hd.
      by rewrite build_histograms_length in Hd. }
    unfold direct in Hd. cbn in Hd.
    rewrite build_histograms_lookup in Hd by done. simplify_eq.
    rewrite (hist_sum_proper _ _ Heq). apply hist_sum_build.
    intros i Hi. by apply Hwf. }
  split.
  - intros f hist Hl. exact (Hall f hist Hl).
  - intros f f' hist hist' Hl Hl'.
    pose proof (Hall f hist Hl) as H1. pose proof (Hall f' hist' Hl') as H2.
    symmetry in H2. exact (transitivity H1 H2).
Qed.

(** ** Sums of the two sides of a split (C3) *)

(** What C3 asks of a split of node [R]. *)
Definition split_sums_ok ctx R si : Prop :=
  (gradient_left si + gradient_right si == Qsum (gradient_of ctx <$> R))%Q
  /\ (hessian_left si + hessian_right si
      == if constant_hessian ctx
         then Qnat (length R) * constant_hessian_value ctx
         else Qsum (hessian_of ctx <$> R))%Q
  /\ n_samples_left si + n_samples_right si = length R.

Lemma split_sums_ok_proper ctx R s1 s2 :
  split_equiv s1 s2 -> split_sums_ok ctx R s2 -> split_sums_ok ctx R s1.
Proof.
  intros (_&_&_&Hgl&Hhl&Hgr&Hhr&Hnl&Hnr) (Hg & Hh & Hn).
  unfold split_sums_ok. rewrite Hgl, Hgr, Hhl, Hhr, Hnl, Hnr. done.
Qed.

Lemma candidate_sums ctx f b total left c :
  candidate ctx f b total left = Some c ->
  s_count left <= s_count total ->
  (gradient_left c + gradient_right c == s_gradient total)%Q
  /\ (hessian_left c + hessian_right c == s_hessian total)%Q
  /\ n_samples_left c + n_samples_right c = s_count total
  /\ feature_idx c = f /\ bin_idx c = b
  /\ n_samples_left c = s_count left
  /\ (gain c == split_gain ctx left (complement total left) total)%Q
  /\ min_samples_leaf ctx <= s_count left
  /\ min_samples_leaf ctx <= s_count total - s_count left.
Proof.
  unfold candidate. intros Hc Hle.
  match type of Hc with (if ?c then _ else _) = _ => destruct c eqn:Hcond end;
    [done|].
  apply orb_false_iff in Hcond as [Hcond Hr%Nat.ltb_ge].
  apply orb_false_iff in Hcond as [_ Hl%Nat.ltb_ge].
  simplify_eq. cbn in *. repeat split; try done; try lia; ring.
Qed.

(** A candidate of a node's own histograms splits the node's samples. *)
Lemma node_cands_sums ctx R c :
  Some c ∈ node_cands ctx (node_stats ctx R) (build_histograms ctx R) 0 ->
  split_sums_ok ctx R c.
Proof.
  intros Hin.
  destruct (node_cands_elem _ _ _ _ _ Hin) as (f & hist & b & Hf & _ & Hb & Hc).
  simpl in Hc.
  assert (f < n_features ctx) as Hlt.
  { apply lookup_lt_Some in Hf. by rewrite build_histograms_length in Hf. }
  rewrite build_histograms_lookup in Hf by done. simplify_eq.
  rewrite build_histogram_length in Hb.
  destruct (prefix_build ctx f R (S b) ltac:(lia)) as (Pc & _).
  unfold cand_at in Hc. apply candidate_sums in Hc as (Hg & Hh & Hn & _).
  - done.
  - rewrite Pc. cbn. apply length_filter.
Qed.

(** In exact arithmetic: a split other than the sentinel has sides whose
    gradient sums, hessian sums (count times the scalar under a constant
    hessian) and counts add up to the node's, whether found directly or by
    subtraction. *)
Theorem split_info_sums ctx R (sibling parent : list nat) si :
  bins_in_range ctx R -> parent ≡ₚ R ++ sibling ->
  si = (find_node_split ctx R).1
  \/ si = (find_node_split_subtraction ctx R
             (find_node_split ctx parent).2
             (find_node_split ctx sibling).2).1 ->
  ~ (gain si == -1)%Q ->
  split_sums_ok ctx R si.
Proof.
  intros Hwf Hp Hsi Hgain.
  destruct (subtraction_split ctx _ _ _ Hp Hwf)
    as [[H1 H2]|(Heq & Hin & _)].
  - destruct Hsi as [->| ->]; [rewrite H2 in Hgain|rewrite H1 in Hgain];
      by destruct Hgain.
  - pose proof (node_cands_sums ctx R _ Hin) as Hok.
    destruct Hsi as [->| ->]; [done|].
    by apply (split_sums_ok_proper _ _ _ _ Heq).
Qed.

(** ** No split below the minimum gain (C2) *)

Lemma Qdiv_zero (a d : Q) : (d == 0 -> a / d == 0)%Q.
Proof. intros ->. unfold Qdiv. change (/ 0)%Q with 0%Q. ring. Qed.

Lemma sq_div_le (a b d : Q) :
  (0 <= d -> a * a <= b * b ->
   (1 # 2) * (a * a) / d <= (1 # 2) * (b * b) / d)%Q.
Proof.
  intros Hd Hab. unfold Qdiv. apply Qmult_le_compat_r.
  - lra.
  - by apply Qinv_le_0_compat.
Qed.

(** Splitting [n] samples that share one gradient [g] and one hessian [h]
    into [x] and [n - x] of them gains nothing. *)
Lemma pure_gain_nonpos (g h l x n : Q) :
  (0 <= h -> 0 <= l -> 0 <= x -> x <= n ->
   (1 # 2) * ((x * g) * (x * g)) / (x * h + l)
   + (1 # 2) * ((n * g - x * g) * (n * g - x * g)) / ((n * h - x * h) + l)
   - (1 # 2) * ((n * g) * (n * g)) / (n * h + l) <= 0)%Q.
Proof.
  intros Hh Hl Hx Hxn.
  assert (0 <= x * h)%Q as Hxh by nra.
  assert (0 <= n * h - x * h)%Q as Hzh by nra.
  assert (0 <= g * g)%Q as Hgg by nra.
  destruct (Qlt_le_dec 0 (x * h + l)) as [D1|D1].
  - destruct (Qlt_le_dec 0 (n * h - x * h + l)) as [D2|D2].
    + assert (0 < n * h + l)%Q as D3 by lra.
      setoid_replace ((1 # 2) * ((x * g) * (x * g)) / (x * h + l)
        + (1 # 2) * ((n * g - x * g) * (n * g - x * g)) / ((n * h - x * h) + l)
        - (1 # 2) * ((n * g) * (n * g)) / (n * h + l))%Q
      with (- ((1 # 2) * (g * g) * (x * (n - x)) * (l * (n * h + 2 * l))
               / ((x * h + l) * ((n * h - x * h) + l) * (n * h + l))))%Q
        using relation Qeq.
      * assert (0 <= (1 # 2) * (g * g) * (x * (n - x)) * (l * (n * h + 2 * l))
                     / ((x * h + l) * ((n * h - x * h) + l) * (n * h + l)))%Q.
        { apply Qle_shift_div_l.
          - apply Qmult_lt_0_compat; [apply Qmult_lt_0_compat|]; lra.
          - assert (0 <= x * (n - x))%Q by nra.
            assert (0 <= l * (n * h + 2 * l))%Q by nra.
            assert (0 <= (g * g) * (x * (n - x)))%Q
              by (apply Qmult_le_0_compat; lra).
            assert (0 <= (g * g) * (x * (n - x)) * (l * (n * h + 2 * l)))%Q
              by (apply Qmult_le_0_compat; lra).
            lra. }
        lra.
      * field. repeat split; lra.
    + assert (l == 0)%Q as El by lra.
      assert (n * h - x * h == 0)%Q as Ez by lra.
      rewrite (Qdiv_zero _ (n * h - x * h + l)) by lra.
      setoid_replace (n * h + l)%Q with (x * h + l)%Q using relation Qeq by lra.
      assert ((1 # 2) * (x * g * (x * g)) / (x * h + l)
              <= (1 # 2) * (n * g * (n * g)) / (x * h + l))%Q.
      { apply sq_div_le; [lra|].
        setoid_replace (x * g * (x * g))%Q with ((x * x) * (g * g))%Q
          using relation Qeq by ring.
        setoid_replace (n * g * (n * g))%Q with ((n * n) * (g * g))%Q
          using relation Qeq by ring.
        apply Qmult_le_compat_r; [nra|lra]. }
      lra.
  - assert (l == 0)%Q as El by lra. assert (x * h == 0)%Q as Ez by lra.
    rewrite (Qdiv_zero _ (x * h + l)) by lra.
    setoid_replace (n * h + l)%Q with (n * h - x * h + l)%Q
      using relation Qeq by lra.
    assert ((1 # 2) * ((n * g - x * g) * (n * g - x * g)) / (n * h - x * h + l)
            <= (1 # 2) * (n * g * (n * g)) / (n * h - x * h + l))%Q.
    { apply sq_div_le; [lra|].
      setoid_replace ((n * g - x * g) * (n * g - x * g))%Q
        with (((n - x) * (n - x)) * (g * g))%Q using relation Qeq by ring.
      setoid_replace (n * g * (n * g))%Q with ((n * n) * (g * g))%Q
        using relation Qeq by ring.
      apply Qmult_le_compat_r; [nra|lra]. }
    lra.
Qed.

Lemma Qnat_nonneg (n : nat) : (0 <= Qnat n)%Q.
Proof. apply (Qnat_le 0). lia. Qed.

(** The hessian sum of samples that share one hessian. *)
Lemma node_stats_hessian ctx R (L : list nat) (h : Q) :
  (forall i, i ∈ R -> (hessian_of ctx i == h)%Q) -> L ⊆ R ->
  (s_hessian (node_stats ctx L) == Qnat (length L) * h)%Q.
Proof.
  intros Hh Hsub. unfold node_stats. cbn.
  destruct (constant_hessian ctx) eqn:Hc.
  - destruct L as [|i L]; [unfold Qnat; cbn; ring|].
    rewrite <- (Hh i) by (apply Hsub; left).
    unfold hessian_of. by rewrite Hc.
  - apply Qsum_const. intros i Hi. apply Hh, Hsub, Hi.
Qed.

Lemma filter_subseteq (P : nat -> Prop) `{!forall i, Decision (P i)} R :
  filter P R ⊆ R.
Proof. intros i Hi. by apply list_elem_of_filter in Hi as [_ Hi]. Qed.

(** In a pure node every candidate has a gain of at most zero. *)
Lemma pure_node_gain ctx R (g h : Q) f b c :
  (forall i, i ∈ R -> (gradient_of ctx i == g)%Q) ->
  (forall i, i ∈ R -> (hessian_of ctx i == h)%Q) ->
  (0 <= h)%Q -> (0 <= l2_regularization ctx)%Q ->
  b < n_bins ctx ->
  cand_at ctx (node_stats ctx R) f (build_histogram ctx f R) b = Some c ->
  (gain c <= 0)%Q.
Proof.
  intros Hg Hh Hh0 Hl0 Hb Hc.
  set (L := filter (fun i => bin_of ctx f i < S b) R).
  pose proof (prefix_build ctx f R (S b) ltac:(lia)) as Hpre. fold L in Hpre.
  assert (L ⊆ R) as Hsub by apply filter_subseteq.
  assert (length L <= length R) as Hlen by apply length_filter.
  unfold cand_at in Hc.
  apply candidate_sums in Hc as (_&_&_&_&_&_&Hgain&_).
  2:{ destruct Hpre as (-> & _). exact Hlen. }
  rewrite Hgain.
  set (SL := Stats (length L) (Qnat (length L) * g) (Qnat (length L) * h)).
  set (ST := Stats (length R) (Qnat (length R) * g) (Qnat (length R) * h)).
  assert (stats_equiv (node_stats ctx L) SL) as HL.
  { repeat split; cbn.
    - apply Qsum_const. intros i Hi. apply Hg, Hsub, Hi.
    - apply (node_stats_hessian ctx R); done. }
  assert (stats_equiv (node_stats ctx R) ST) as HT.
  { repeat split; cbn.
    - by apply Qsum_const.
    - apply (node_stats_hessian ctx R); done. }
  rewrite (split_gain_proper ctx _ SL _ (complement ST SL) _ ST).
  - unfold split_gain, complement, SL, ST. cbn.
    apply pure_gain_nonpos; try done; [apply Qnat_nonneg|by apply Qnat_le].
  - by rewrite Hpre.
  - apply complement_proper; [done|by rewrite Hpre].
  - done.
Qed.

(** When no candidate of a node has a gain above [min_gain_to_split] (a
    tie at the threshold included) the search returns the sentinel, whose
    gain is [-1], on one feature as on all of them; and so it does, in exact
    arithmetic, on a pure node, where all gradients are equal and all
    hessians are equal, for any minimum gain that is not negative. *)
Theorem no_split_below_min_gain ctx R :
  ((forall c,
      Some c ∈ node_cands ctx (node_stats ctx R) (build_histograms ctx R) 0 ->
      (gain c <= min_gain_to_split ctx)%Q) ->
   (find_node_split ctx R).1 = no_split)
  /\ (forall f,
        (forall c,
           Some c ∈ feature_cands ctx (node_stats ctx R) f
                      (build_histogram ctx f R) ->
           (gain c <= min_gain_to_split ctx)%Q) ->
        (_find_histogram_split ctx f R).1 = no_split)
  /\ (gain no_split == -1)%Q
  /\ (forall g h : Q,
        (forall i, i ∈ R -> (gradient_of ctx i == g)%Q) ->
        (forall i, i ∈ R -> (hessian_of ctx i == h)%Q) ->
        (0 <= h)%Q -> (0 <= l2_regularization ctx)%Q ->
        (0 <= min_gain_to_split ctx)%Q ->
        (find_node_split ctx R).1 = no_split
        /\ forall f, (_find_histogram_split ctx f R).1 = no_split).
Proof.
  split_and!.
  - intros Hle. cbn. rewrite scan_features_fold. by apply finalize_no_split.
  - intros f Hle. cbn. rewrite scan_feature_fold. by apply finalize_no_split.
  - reflexivity.
  - intros g h Hg Hh Hh0 Hl0 Hmin. split.
    + cbn. rewrite scan_features_fold. apply finalize_no_split. intros c Hin.
      destruct (node_cands_elem _ _ _ _ _ Hin)
        as (f & hist & b & Hf & _ & Hb & Hc).
      simpl in Hc.
      assert (f < n_features ctx) as Hlt.
      { apply lookup_lt_Some in Hf. by rewrite build_histograms_length in Hf. }
      rewrite build_histograms_lookup in Hf by done. simplify_eq.
      rewrite build_histogram_length in Hb.
      pose proof (pure_node_gain ctx R g h f b c Hg Hh Hh0 Hl0 Hb Hc). lra.
    + intros f. cbn. rewrite scan_feature_fold. apply finalize_no_split.
      intros c Hin. unfold feature_cands in Hin.
      apply list_elem_of_fmap in Hin as (b & Hc & Hb).
      apply elem_of_seq in Hb. rewrite build_histogram_length in Hb.
      pose proof (pure_node_gain ctx R g h f b c Hg Hh Hh0 Hl0
                    ltac:(lia) (eq_sym Hc)). lra.
Qed.

(** ** Candidates of a node's own histogram *)

(** The samples on the left of boundary bin [b] of feature [f]. *)
Definition left_samples ctx f R (b : nat) : list nat :=
  filter (fun i => bin_of ctx f i < S b) R.

(** The gain of the split of [R] that sends the samples [L] left. *)
Definition gain_of ctx R (L : list nat) : Q :=
  split_gain ctx (node_stats ctx L)
             (complement (node_stats ctx R) (node_stats ctx L))
             (node_stats ctx R).

Lemma left_samples_subseteq ctx f R b : left_samples ctx f R b ⊆ R.
Proof. apply filter_subseteq. Qed.

Lemma left_samples_length ctx f R b : length (left_samples ctx f R b) <= length R.
Proof. apply length_filter. Qed.

(** What an accepted candidate says of the samples. *)
Lemma cand_at_sums ctx f R b c :
  b < n_bins ctx ->
  cand_at ctx (node_stats ctx R) f (build_histogram ctx f R) b = Some c ->
  feature_idx c = f /\ bin_idx c = b
  /\ n_samples_left c = length (left_samples ctx f R b)
  /\ n_samples_left c + n_samples_right c = length R
  /\ (gain c == gain_of ctx R (left_samples ctx f R b))%Q
  /\ min_samples_leaf ctx <= length (left_samples ctx f R b)
  /\ min_samples_leaf ctx <= length R - length (left_samples ctx f R b).
Proof.
  intros Hb Hc.
  pose proof (prefix_build ctx f R (S b) ltac:(lia)) as Hpre.
  fold (left_samples ctx f R b) in Hpre.
  pose proof (left_samples_length ctx f R b) as Hlen.
  pose proof Hpre as (Pc & _). cbn in Pc.
  unfold cand_at in Hc.
  apply candidate_sums in Hc as (_&_&Hn&Hf&Hbin&Hl&Hgain&Hm1&Hm2);
    [|by rewrite Pc].
  rewrite Pc in *. cbn in *. split_and!; try done.
  rewrite Hgain. unfold gain_of.
  apply split_gain_proper; [done| |done].
  by apply complement_proper.
Qed.

(** A boundary whose two sides are large enough is a candidate. *)
Lemma cand_at_accept ctx f R b :
  b < n_bins ctx ->
  (min_hessian_to_split ctx
   <= s_hessian (node_stats ctx (left_samples ctx f R b)))%Q ->
  (min_hessian_to_split ctx
   <= s_hessian (node_stats ctx R)
      - s_hessian (node_stats ctx (left_samples ctx f R b)))%Q ->
  min_samples_leaf ctx <= length (left_samples ctx f R b) ->
  min_samples_leaf ctx <= length R - length (left_samples ctx f R b) ->
  exists c,
    cand_at ctx (node_stats ctx R) f (build_histogram ctx f R) b = Some c.
Proof.
  intros Hb Hh1 Hh2 Hn1 Hn2.
  pose proof (prefix_build ctx f R (S b) ltac:(lia)) as Hpre.
  fold (left_samples ctx f R b) in Hpre.
  assert (stats_equiv (node_stats ctx R) (node_stats ctx R)) as Ht by done.
  pose proof (candidate_proper ctx f b _ _ _ _ Ht Hpre) as Hc.
  unfold cand_at.
  assert (is_Some (candidate ctx f b (node_stats ctx R)
                     (node_stats ctx (left_samples ctx f R b)))) as [c' Hc'].
  { unfold candidate.
    match goal with |- is_Some (if ?c then _ else _) =>
      assert (c = false) as -> end; [|by eexists].
    repeat (apply orb_false_iff; split).
    - apply not_true_iff_false. rewrite Qltb_lt. by apply Qle_not_lt.
    - apply not_true_iff_false. rewrite Qltb_lt. by apply Qle_not_lt.
    - apply Nat.ltb_ge. cbn. lia.
    - apply Nat.ltb_ge. cbn. lia. }
  rewrite Hc' in Hc. inversion Hc. by eexists.
Qed.

(** The candidates of a feature around boundary bin [t]. *)
Lemma feature_cands_split ctx total f hist (t : nat) :
  t < Nat.min (default 0 (n_bins_per_feature ctx !! f) - 1) (length hist) ->
  exists m,
    feature_cands ctx total f hist
    = (cand_at ctx total f hist <$> seq 0 t)
      ++ cand_at ctx total f hist t
      :: (cand_at ctx total f hist <$> seq (S t) m)
    /\ S t + m
       = Nat.min (default 0 (n_bins_per_feature ctx !! f) - 1) (length hist).
Proof.
  intros Ht. unfold feature_cands.
  set (k := Nat.min _ _) in *. exists (k - S t). split; [|lia].
  replace k with (t + S (k - S t)) at 1 by lia.
  rewrite seq_app, fmap_app. simpl. done.
Qed.

(** The search on one feature returns the first candidate of largest gain,
    when that gain is above the minimum. *)
Lemma find_histogram_split_at ctx f R (t : nat) c :
  t < default 0 (n_bins_per_feature ctx !! f) - 1 -> t < n_bins ctx ->
  cand_at ctx (node_stats ctx R) f (build_histogram ctx f R) t = Some c ->
  (forall b c', b < t ->
     cand_at ctx (node_stats ctx R) f (build_histogram ctx f R) b = Some c' ->
     (gain c' < gain c)%Q) ->
  (forall b c', t < b < n_bins ctx ->
     cand_at ctx (node_stats ctx R) f (build_histogram ctx f R) b = Some c' ->
     (gain c' <= gain c)%Q) ->
  (min_gain_to_split ctx < gain c)%Q ->
  (_find_histogram_split ctx f R).1 = c.
Proof.
  intros Ht1 Ht2 Hc Hpre Hpost Hmin. cbn. rewrite scan_feature_fold.
  destruct (feature_cands_split ctx (node_stats ctx R) f
              (build_histogram ctx f R) t) as (m & -> & Hm).
  { rewrite build_histogram_length. lia. }
  rewrite build_histogram_length in Hm. rewrite Hc.
  apply finalize_first_max; [| |done].
  - intros c' Hin. apply list_elem_of_fmap in Hin as (b & Hb & Hin).
    apply elem_of_seq in Hin. apply (Hpre b); [lia|done].
  - intros c' Hin. apply list_elem_of_fmap in Hin as (b & Hb & Hin).
    apply elem_of_seq in Hin. apply (Hpost b); [lia|done].
Qed.

(** ** A gradient that changes sign at one bin (C7) *)

Lemma half_sq_div_le (g h : Q) :
  (0 < h -> g * g <= h * h -> (1 # 2) * (g * g) / h <= (1 # 2) * h)%Q.
Proof. intros Hh Hg. apply Qle_shift_div_r; [done|]. lra. Qed.

Lemma half_sq_div_lt (g h : Q) :
  (0 < h -> g * g < h * h -> (1 # 2) * (g * g) / h < (1 # 2) * h)%Q.
Proof. intros Hh Hg. apply Qlt_shift_div_r; [done|]. lra. Qed.

Lemma half_sq_div_eq (g h : Q) :
  (0 < h -> g * g == h * h -> (1 # 2) * (g * g) / h == (1 # 2) * h)%Q.
Proof. intros Hh Hg. rewrite Hg. field. lra. Qed.

(** The square of a sum of [U] gradients [-s] and [V] gradients [s], for a
    sign [s]. *)
Lemma signed_sq (s U V : Q) :
  (s * s == 1 ->
   (U * - s + V * s) * (U * - s + V * s) == (V - U) * (V - U))%Q.
Proof.
  intros Hs.
  setoid_replace ((U * - s + V * s) * (U * - s + V * s))%Q
    with ((s * s) * ((V - U) * (V - U)))%Q using relation Qeq by ring.
  rewrite Hs. ring.
Qed.

(** The gain of a split of [U + P] samples of gradient [-s] and [V + Q']
    samples of gradient [s], all of hessian one, that sends [U] and [V] of
    them left, without regularization: at most half the sample count less
    the parent's term, and exactly that when each side holds one sign. *)
Lemma signed_gain_bound (s U V P Q' l T gl hl G H : Q) :
  (s * s == 1 -> l == 0 ->
   0 <= U -> 0 <= V -> 0 <= P -> 0 <= Q' -> 0 < U + V -> 0 < P + Q' ->
   gl == U * - s + V * s -> hl == U + V ->
   G == (U + P) * - s + (V + Q') * s -> H == U + V + P + Q' ->
   let gain := (1 # 2) * (gl * gl) / (hl + l)
               + (1 # 2) * ((G - gl) * (G - gl)) / (H - hl + l) - T in
   gain <= (1 # 2) * H - T
   /\ (V == 0 -> 0 < P -> 0 < Q' -> gain < (1 # 2) * H - T)
   /\ (V == 0 -> P == 0 -> gain == (1 # 2) * H - T))%Q.
Proof.
  intros Hs Hl HU HV HP HQ Hx Hy Hgl Hhl HG HH gain. subst gain.
  assert (hl + l == U + V)%Q as -> by lra.
  assert (H - hl + l == P + Q')%Q as -> by lra.
  assert (G - gl == P * - s + Q' * s)%Q as -> by (rewrite HG, Hgl; ring).
  rewrite Hgl, !signed_sq by done.
  assert ((1 # 2) * H == (1 # 2) * (U + V) + (1 # 2) * (P + Q'))%Q as ->
    by lra.
  split_and!.
  - pose proof (half_sq_div_le (V - U) (U + V) Hx ltac:(nra)).
    pose proof (half_sq_div_le (Q' - P) (P + Q') Hy ltac:(nra)).
    lra.
  - intros HV0 HP0 HQ0.
    pose proof (half_sq_div_le (V - U) (U + V) Hx ltac:(nra)).
    pose proof (half_sq_div_lt (Q' - P) (P + Q') Hy ltac:(nra)).
    lra.
  - intros HV0 HP0.
    assert ((V - U) * (V - U) == (U + V) * (U + V))%Q as E1
      by (rewrite HV0; ring).
    assert ((Q' - P) * (Q' - P) == (P + Q') * (P + Q'))%Q as E2
      by (rewrite HP0; ring).
    rewrite (half_sq_div_eq _ _ Hx E1), (half_sq_div_eq _ _ Hy E2).
    reflexivity.
Qed.

(** The parent's term is less than half the sample count when both signs
    occur. *)
Lemma signed_total_bound (s A M l G H : Q) :
  (s * s == 1 -> l == 0 -> 0 < A -> 0 < M ->
   G == A * - s + M * s -> H == A + M ->
   (1 # 2) * (G * G) / (H + l) < (1 # 2) * H)%Q.
Proof.
  intros Hs Hl HA HM HG HH.
  assert (H + l == H)%Q as -> by lra.
  apply half_sq_div_lt; [lra|].
  rewrite HG, signed_sq by done. rewrite HH. nra.
Qed.

Lemma filter_comm (P1 P2 : nat -> Prop) `{!forall i, Decision (P1 i)}
    `{!forall i, Decision (P2 i)} (l : list nat) :
  filter P1 (filter P2 l) = filter P2 (filter P1 l).
Proof. rewrite !list_filter_filter. apply list_filter_iff. tauto. Qed.

Lemma filter_complement_length (P : nat -> Prop) `{!forall i, Decision (P i)}
    (l : list nat) :
  length (filter P l) + length (filter (fun i => ~ P i) l) = length l.
Proof.
  rewrite <- length_app. apply Permutation_length, filter_app_complement.
Qed.

(** The gradient sum of samples whose gradient is [-s] where [P] holds and
    [s] elsewhere. *)
Lemma Qsum_signed ctx (P : nat -> Prop) `{!forall i, Decision (P i)} (s : Q)
    (L : list nat) :
  (forall i, i ∈ L ->
     (gradient_of ctx i == if decide (P i) then - s else s)%Q) ->
  (Qsum (gradient_of ctx <$> L)
   == Qnat (length (filter P L)) * - s
      + Qnat (length (filter (fun i => ~ P i) L)) * s)%Q.
Proof.
  intros Hg.
  assert (gradient_of ctx <$> (filter P L ++ filter (fun i => ~ P i) L)
          ≡ₚ gradient_of ctx <$> L) as Hp
    by (by rewrite filter_app_complement).
  rewrite <- (Qsum_perm _ _ Hp), fmap_app, Qsum_app.
  rewrite (Qsum_const _ _ (- s)%Q), (Qsum_const _ _ s); [reflexivity| |].
  - intros i [Hn Hi]%list_elem_of_filter. rewrite Hg by done.
    by rewrite decide_False.
  - intros i [Hn Hi]%list_elem_of_filter. rewrite Hg by done.
    by rewrite decide_True.
Qed.

(** The largest gain a node of samples of hessian one can reach: half the
    hessian sum less the parent's term. *)
Definition top_gain ctx R : Q :=
  ((1 # 2) * s_hessian (node_stats ctx R)
   - (1 # 2) * (s_gradient (node_stats ctx R) * s_gradient (node_stats ctx R))
               / (s_hessian (node_stats ctx R) + l2_regularization ctx))%Q.

Lemma elem_of_length_pos (i : nat) (l : list nat) : i ∈ l -> 1 <= length l.
Proof. destruct 1; simpl; lia. Qed.

Section SignedSplit.
Context (ctx : SplittingContext) (f : nat) (R : list nat) (t : nat) (s : Q).
Hypothesis sign_sq : (s * s == 1)%Q.
Hypothesis signed_gradients : forall i, i ∈ R ->
  (gradient_of ctx i == if decide (bin_of ctx f i <= t)%nat then - s else s)%Q.
Hypothesis unit_hessians : forall i, i ∈ R -> (hessian_of ctx i == 1)%Q.
Hypothesis no_regularization : (l2_regularization ctx == 0)%Q.
Hypothesis one_sample_leaf : min_samples_leaf ctx = 1.

Let below (i : nat) : Prop := bin_of ctx f i <= t.

Lemma signed_stats (L : list nat) :
  L ⊆ R ->
  (s_gradient (node_stats ctx L)
   == Qnat (length (filter below L)) * - s
      + Qnat (length (filter (fun i => ~ below i) L)) * s)%Q
  /\ (s_hessian (node_stats ctx L) == Qnat (length L))%Q.
Proof.
  intros Hsub. split.
  - apply (Qsum_signed ctx below). intros i Hi.
    apply signed_gradients, Hsub, Hi.
  - rewrite (node_stats_hessian ctx R L 1) by done. ring.
Qed.

(** How many samples on the left of boundary [b] lie at or below [t], and
    how many above. *)
Lemma signed_counts (b : nat) :
  let L := left_samples ctx f R b in
  length (filter below L) <= length (filter below R)
  /\ length (filter (fun i => ~ below i) L)
     <= length (filter (fun i => ~ below i) R)
  /\ (b <= t -> length (filter (fun i => ~ below i) L) = 0)
  /\ (t <= b -> length (filter below L) = length (filter below R))
  /\ (b < t -> (exists i, i ∈ R /\ bin_of ctx f i = t) ->
      length (filter below L) < length (filter below R)).
Proof.
  intros L. unfold L, left_samples. split_and!.
  - rewrite filter_comm. apply length_filter.
  - rewrite filter_comm. apply length_filter.
  - intros Hb. rewrite filter_none; [done|].
    intros i [Hi _]%list_elem_of_filter. unfold below. lia.
  - intros Hb. rewrite filter_comm, filter_all; [done|].
    intros i [Hi _]%list_elem_of_filter. unfold below in Hi. lia.
  - intros Hb (i & Hi & Hbin). rewrite filter_comm.
    apply (length_filter_lt _ _ i).
    + apply list_elem_of_filter. unfold below. split; [lia|done].
    + lia.
Qed.

(** Every candidate gains at most [top_gain]; one before [t] gains less
    and the one at [t] gains exactly that. *)
Lemma signed_candidate (b : nat) (c : SplitInfo) :
  (exists i, i ∈ R /\ bin_of ctx f i = t) ->
  (exists i, i ∈ R /\ t < bin_of ctx f i) ->
  b < n_bins ctx ->
  cand_at ctx (node_stats ctx R) f (build_histogram ctx f R) b = Some c ->
  (gain c <= top_gain ctx R)%Q
  /\ (b < t -> (gain c < top_gain ctx R)%Q)
  /\ (b = t -> (gain c == top_gain ctx R)%Q).
Proof.
  intros Hat (j & Hj & Hjbin) Hb Hc.
  destruct (cand_at_sums ctx f R b c Hb Hc) as (_&_&_&_&Hgain&Hn1&Hn2).
  rewrite one_sample_leaf in Hn1, Hn2.
  set (L := left_samples ctx f R b) in *.
  destruct (signed_counts b) as (Hu & Hv & Hv0 & Hua & Hult).
  fold L in Hu, Hv, Hv0, Hua, Hult.
  pose proof (filter_complement_length below L) as HL.
  pose proof (filter_complement_length below R) as HR.
  destruct (signed_stats L (left_samples_subseteq ctx f R b)) as (Hgl & Hhl).
  destruct (signed_stats R ltac:(done)) as (HG & HH).
  set (u := length (filter below L)) in *.
  set (v := length (filter (fun i => ~ below i) L)) in *.
  set (a := length (filter below R)) in *.
  set (m := length (filter (fun i => ~ below i) R)) in *.
  assert (1 <= m) as Hm.
  { assert (j ∈ filter (fun i => ~ below i) R) as Hin
      by (apply list_elem_of_filter; unfold below; split; [lia|done]).
    exact (elem_of_length_pos _ _ Hin). }
  assert (Qnat u + Qnat (a - u) == Qnat a)%Q as EA
    by (rewrite <- Qnat_plus; by replace (u + (a - u)) with a by lia).
  assert (Qnat v + Qnat (m - v) == Qnat m)%Q as EM
    by (rewrite <- Qnat_plus; by replace (v + (m - v)) with m by lia).
  assert (Qnat (length L) == Qnat u + Qnat v)%Q as EL
    by (by rewrite <- Qnat_plus, HL).
  assert (Qnat (length R) == Qnat a + Qnat m)%Q as ER
    by (by rewrite <- Qnat_plus, HR).
  assert (0 < Qnat (length L))%Q as HLpos by (apply (Qnat_lt 0); lia).
  assert (0 < Qnat (length R - length L))%Q as HRpos
    by (apply (Qnat_lt 0); lia).
  rewrite Qnat_minus in HRpos by lia.
  pose proof (signed_gain_bound s (Qnat u) (Qnat v) (Qnat (a - u))
                (Qnat (m - v)) (l2_regularization ctx)
                ((1 # 2) * (s_gradient (node_stats ctx R)
                            * s_gradient (node_stats ctx R))
                 / (s_hessian (node_stats ctx R) + l2_regularization ctx))%Q
                (s_gradient (node_stats ctx L))
                (s_hessian (node_stats ctx L))
                (s_gradient (node_stats ctx R))
                (s_hessian (node_stats ctx R))
                sign_sq no_regularization
                (Qnat_nonneg _) (Qnat_nonneg _) (Qnat_nonneg _)
                (Qnat_nonneg _)) as Hbound.
  cbv zeta in Hbound.
  destruct Hbound as (B1 & B2 & B3).
  - lra.
  - lra.
  - exact Hgl.
  - lra.
  - rewrite HG.
    setoid_replace (Qnat u + Qnat (a - u))%Q with (Qnat a)
      using relation Qeq by exact EA.
    setoid_replace (Qnat v + Qnat (m - v))%Q with (Qnat m)
      using relation Qeq by exact EM.
    reflexivity.
  - lra.
  - fold (gain_of ctx R L) in Hgain.
    unfold gain_of, split_gain, complement in Hgain.
    cbn [s_gradient s_hessian] in Hgain.
    unfold top_gain. rewrite Hgain. split_and!.
    + exact B1.
    + intros Hlt. apply B2.
      * rewrite (Hv0 ltac:(lia)). reflexivity.
      * apply (Qnat_lt 0). specialize (Hult Hlt Hat). lia.
      * apply (Qnat_lt 0). rewrite (Hv0 ltac:(lia)). lia.
    + intros ->. apply B3.
      * rewrite (Hv0 ltac:(lia)). reflexivity.
      * rewrite (Hua ltac:(lia)). by replace (a - a) with 0 by lia.
Qed.

(** With a sample at or below [t] and one above, [top_gain] is positive. *)
Lemma signed_top_gain_pos :
  (exists i, i ∈ R /\ bin_of ctx f i <= t) ->
  (exists i, i ∈ R /\ t < bin_of ctx f i) ->
  (0 < top_gain ctx R)%Q.
Proof.
  intros (i & Hi & Hibin) (j & Hj & Hjbin).
  destruct (signed_stats R ltac:(done)) as (HG & HH).
  pose proof (filter_complement_length below R) as HR.
  assert (1 <= length (filter below R)) as Ha.
  { assert (i ∈ filter below R) as Hin
      by (apply list_elem_of_filter; unfold below; split; [lia|done]).
    exact (elem_of_length_pos _ _ Hin). }
  assert (1 <= length (filter (fun i => ~ below i) R)) as Hm.
  { assert (j ∈ filter (fun i => ~ below i) R) as Hin
      by (apply list_elem_of_filter; unfold below; split; [lia|done]).
    exact (elem_of_length_pos _ _ Hin). }
  pose proof (signed_total_bound s _ _ (l2_regularization ctx) _
                (s_hessian (node_stats ctx R)) sign_sq no_regularization
                (Qnat_lt 0 _ Ha) (Qnat_lt 0 _ Hm) HG) as Hlt.
  unfold top_gain.
  assert (s_hessian (node_stats ctx R)
          == Qnat (length (filter below R))
             + Qnat (length (filter (fun i => ~ below i) R)))%Q as HH'
    by (by rewrite HH, <- Qnat_plus, HR).
  specialize (Hlt HH'). lra.
Qed.
End SignedSplit.

(** C7, as the model has it: when the gradients are [-s] on the samples
    whose bin on feature [f] is at most [t] and [s] on the others, for a sign
    [s], all hessians are one, and the node holds a sample of bin [t] and one
    of a higher bin, the search on feature [f] under the settings of the
    test (no regularization, leaves of one sample, a minimum hessian of at
    most one, a minimum gain of zero) returns bin [t] of feature [f] with a
    gain that is not negative, and its two counts add up to the node's. *)
Theorem histogram_split_signed ctx f R (t : nat) (s : Q) :
  t + 2 <= n_bins ctx ->
  n_bins_per_feature ctx !! f = Some (n_bins ctx) ->
  (s == 1 \/ s == -1)%Q ->
  (forall i, i ∈ R ->
     (gradient_of ctx i == if decide (bin_of ctx f i <= t)%nat then - s else s)%Q) ->
  (forall i, i ∈ R -> (hessian_of ctx i == 1)%Q) ->
  (l2_regularization ctx == 0)%Q ->
  (min_hessian_to_split ctx <= 1)%Q ->
  min_samples_leaf ctx = 1 ->
  (min_gain_to_split ctx == 0)%Q ->
  (exists i, i ∈ R /\ bin_of ctx f i = t) ->
  (exists i, i ∈ R /\ t < bin_of ctx f i) ->
  let si := (_find_histogram_split ctx f R).1 in
  bin_idx si = t /\ (0 <= gain si)%Q /\ feature_idx si = f
  /\ n_samples_left si + n_samples_right si = length R.
Proof.
  intros Ht HB Hs Hg Hh Hl2 Hmh Hml Hmg Hat Habove si.
  assert (s * s == 1)%Q as Hsq by (destruct Hs as [-> | ->]; reflexivity).
  assert (t < n_bins ctx) as Htn by lia.
  destruct Hat as (i & Hi & Hibin). destruct Habove as (j & Hj & Hjbin).
  assert (exists i, i ∈ R /\ bin_of ctx f i = t) as Hat by eauto.
  assert (exists i, i ∈ R /\ t < bin_of ctx f i) as Habove by eauto.
  assert (exists c,
            cand_at ctx (node_stats ctx R) f (build_histogram ctx f R) t
            = Some c) as (c & Hc).
  { pose proof (filter_complement_length
                  (fun i => bin_of ctx f i < S t) R) as HR.
    assert (1 <= length (left_samples ctx f R t)) as Ha.
    { assert (i ∈ left_samples ctx f R t) as Hin
        by (apply list_elem_of_filter; split; [lia|done]).
      exact (elem_of_length_pos _ _ Hin). }
    assert (1 <= length (filter (fun i => ~ bin_of ctx f i < S t) R)) as Hm.
    { assert (j ∈ filter (fun i => ~ bin_of ctx f i < S t) R) as Hin
        by (apply list_elem_of_filter; split; [lia|done]).
      exact (elem_of_length_pos _ _ Hin). }
    fold (left_samples ctx f R t) in HR.
    apply cand_at_accept; try lia.
    - rewrite (node_stats_hessian ctx R _ 1 Hh (left_samples_subseteq _ _ _ _)).
      pose proof (Qnat_le 1 _ Ha) as H1. change (Qnat 1) with 1%Q in H1. lra.
    - rewrite (node_stats_hessian ctx R _ 1 Hh (left_samples_subseteq _ _ _ _)).
      rewrite (node_stats_hessian ctx R R 1 Hh ltac:(done)).
      assert (1 <= length R - length (left_samples ctx f R t)) as H1 by lia.
      apply Qnat_le in H1. rewrite Qnat_minus in H1 by lia.
      change (Qnat 1) with 1%Q in H1. lra. }
  pose proof (signed_candidate ctx f R t s Hsq Hg Hh Hl2 Hml) as Hcand.
  destruct (Hcand t c Hat Habove Htn Hc) as (_ & _ & Heq).
  specialize (Heq eq_refl).
  assert (0 < top_gain ctx R)%Q as Hpos.
  { apply (signed_top_gain_pos ctx f R t s); try done.
    exists i. split; [done|lia]. }
  assert (si = c) as ->.
  { apply (find_histogram_split_at ctx f R t c).
    - rewrite HB. simpl. lia.
    - done.
    - done.
    - intros b c' Hb Hc'.
      destruct (Hcand b c' Hat Habove ltac:(lia) Hc') as (_ & Hlt & _).
      rewrite Heq. by apply Hlt.
    - intros b c' Hb Hc'.
      destruct (Hcand b c' Hat Habove ltac:(lia) Hc') as (Hle & _).
      by rewrite Heq.
    - by rewrite Heq, Hmg. }
  destruct (cand_at_sums ctx f R t c Htn Hc) as (Hf & Hb & _ & Hn & _).
  split_and!; try done. rewrite Heq. lra.
Qed.

(** ** The two partitioners (C5) *)

(** *** The parallel partitioner *)

Lemma chunk_sizes_sum_aux (c r k : nat) :
  sum_list ((fun t => c + (if (t <? r)%nat then 1 else 0)) <$> seq 0 k)
  = k * c + Nat.min r k.
Proof.
  induction k as [|k IH]; [simpl; lia|].
  rewrite seq_S, fmap_app, sum_list_with_app, IH. simpl.
  destruct (Nat.ltb_spec k r); lia.
Qed.

(** The chunks cover the range. *)
Lemma chunk_sizes_sum (n k : nat) : 0 < k -> sum_list (chunk_sizes n k) = n.
Proof.
  intros Hk. unfold chunk_sizes. rewrite chunk_sizes_sum_aux.
  pose proof (Nat.mod_upper_bound n k ltac:(lia)).
  pose proof (Nat.div_mod_eq n k). lia.
Qed.

Lemma filter_join (P : nat -> Prop) `{!forall i, Decision (P i)}
    (chunks : list (list nat)) :
  mjoin (filter P <$> chunks) = filter P (mjoin chunks).
Proof.
  induction chunks as [|chunk chunks IH]; [done|].
  simpl. rewrite filter_app. f_equal. exact IH.
Qed.

Lemma sum_length_join (chunks : list (list nat)) :
  sum_list_with length chunks = length (mjoin chunks).
Proof.
  induction chunks as [|chunk chunks IH]; [done|].
  simpl. rewrite length_app. lia.
Qed.

(** The merge pass writes the left elements of the chunks, in order, from
    the left offset on, and their right elements from the right offset
    on. *)
Lemma merge_chunks_spec (parts : list (list nat * list nat)) :
  forall (A X B Y arr : list nat) (lo ro : nat),
  lo = length A -> ro = length A + length X + length B ->
  arr = A ++ X ++ B ++ Y ->
  length X = sum_list_with (length ∘ fst) parts ->
  length Y = sum_list_with (length ∘ snd) parts ->
  merge_chunks parts lo ro arr
  = A ++ mjoin (fst <$> parts) ++ B ++ mjoin (snd <$> parts).
Proof.
  induction parts as [|[lefts rights] parts IH];
    intros A X B Y arr lo ro Hlo Hro Harr HX HY.
  - destruct X; [|done]. destruct Y; [|done]. by subst.
  - simpl in *.
    rewrite <- (take_drop (length lefts) X) in Harr.
    rewrite <- (take_drop (length rights) Y) in Harr.
    assert (length (take (length lefts) X) = length lefts) as HX1
      by (rewrite length_take; lia).
    assert (length (take (length rights) Y) = length rights) as HY1
      by (rewrite length_take; lia).
    etrans;
      [apply (IH (A ++ lefts) (drop (length lefts) X) (B ++ rights)
                 (drop (length rights) Y))
      |by rewrite <- !(assoc_L (++))].
    + rewrite length_app. lia.
    + rewrite !length_app, length_drop. lia.
    + subst arr lo ro.
      replace (length A) with (length A + 0) at 2 by lia.
      rewrite <- !(assoc_L (++)), list_inserts_app_r.
      rewrite (list_inserts_0_r lefts (take (length lefts) X)) by done.
      replace (length A + length X + length B)
        with (length (A ++ lefts ++ drop (length lefts) X ++ B) + 0)
        by (rewrite !length_app, length_drop; lia).
      rewrite !(assoc_L (++) _ _ (take (length rights) Y ++ _)).
      rewrite list_inserts_app_r.
      rewrite (list_inserts_0_r rights (take (length rights) Y)) by done.
      by rewrite <- !(assoc_L (++)).
    + rewrite length_drop. lia.
    + rewrite length_drop. lia.
Qed.

Lemma classify_counts ctx si (chunks : list (list nat)) :
  sum_list_with (length ∘ fst) (classify ctx si <$> chunks)
  = length (filter (goes_left ctx si) (mjoin chunks))
  /\ sum_list_with (length ∘ snd) (classify ctx si <$> chunks)
     = length (filter (fun i => ~ goes_left ctx si i) (mjoin chunks))
  /\ mjoin (fst <$> (classify ctx si <$> chunks))
     = filter (goes_left ctx si) (mjoin chunks)
  /\ mjoin (snd <$> (classify ctx si <$> chunks))
     = filter (fun i => ~ goes_left ctx si i) (mjoin chunks).
Proof.
  induction chunks as [|chunk chunks (IH1 & IH2 & IH3 & IH4)]; [done|].
  simpl. rewrite !filter_app, !length_app.
  split_and!; f_equal; assumption.
Qed.

(** The parallel partitioner keeps, on each side, the order of the range. *)
Lemma reorder_parallel_spec ctx si R :
  0 < n_threads ctx ->
  reorder_parallel ctx si R
  = (filter (goes_left ctx si) R ++ filter (fun i => ~ goes_left ctx si i) R,
     length (filter (goes_left ctx si) R)).
Proof.
  intros Hk. unfold reorder_parallel.
  set (chunks := reshape (chunk_sizes (length R) (n_threads ctx)) R).
  assert (mjoin chunks = R) as Hjoin
    by (by apply join_reshape, chunk_sizes_sum).
  destruct (classify_counts ctx si chunks) as (H1 & H2 & H3 & H4).
  rewrite Hjoin in H1, H2, H3, H4.
  pose proof (filter_complement_length (goes_left ctx si) R) as Hlen.
  rewrite H1. f_equal.
  rewrite (merge_chunks_spec _ []
             (take (length (filter (goes_left ctx si) R)) R) []
             (drop (length (filter (goes_left ctx si) R)) R)).
  - by rewrite H3, H4.
  - done.
  - simpl. rewrite length_take. lia.
  - simpl. by rewrite take_drop.
  - rewrite length_take. lia.
  - rewrite length_drop. lia.
Qed.

Lemma split_indices_parallel_spec ctx si R :
  0 < n_threads ctx ->
  split_indices_parallel ctx si R
  = (filter (goes_left ctx si) R, filter (fun i => ~ goes_left ctx si i) R).
Proof.
  intros Hk. unfold split_indices_parallel.
  rewrite reorder_parallel_spec by done.
  by rewrite take_app_length, drop_app_length.
Qed.

(** *** The sequential partitioner *)

Lemma swap_perm_aux (l : list nat) (j a b : nat) :
  l !! j = Some b -> b :: <[j:=a]> l ≡ₚ a :: l.
Proof.
  revert j. induction l as [|y l IH]; intros [|j] Hj; simplify_eq/=.
  - apply perm_swap.
  - rewrite (perm_swap y b), (IH j Hj). apply perm_swap.
Qed.

Lemma swap_perm (arr : list nat) (i j : nat) : swap arr i j ≡ₚ arr.
Proof.
  unfold swap. destruct (arr !! i) as [a|] eqn:Hi; [|done].
  destruct (arr !! j) as [b|] eqn:Hj; [|done].
  revert i j Hi Hj.
  induction arr as [|y arr IH]; intros [|i] [|j] Hi Hj; simplify_eq/=.
  - done.
  - by apply swap_perm_aux.
  - by apply swap_perm_aux.
  - f_equiv. by apply IH.
Qed.

(** What holds after the scan has passed [i] positions: the array is a
    reordering of the range, the positions before the split position hold
    elements that go left, and those from it up to [i] elements that go
    right. *)
Definition scan_inv ctx si R (i : nat) (state : list nat * nat) : Prop :=
  state.2 <= i
  /\ length state.1 = length R
  /\ state.1 ≡ₚ R
  /\ (forall j x, j < state.2 -> state.1 !! j = Some x -> goes_left ctx si x)
  /\ (forall j x, state.2 <= j < i -> state.1 !! j = Some x ->
        ~ goes_left ctx si x).

Lemma scan_inv_step ctx si R i state :
  scan_inv ctx si R i state -> i < length R ->
  scan_inv ctx si R (S i) (scan_and_swap ctx si state i).
Proof.
  destruct state as [arr pos]. intros (Hp & Hlen & Hperm & HL & HR) Hi.
  simpl in *.
  destruct (lookup_lt_is_Some_2 arr i ltac:(lia)) as [x Hx].
  rewrite Hx. destruct (decide (goes_left ctx si x)) as [Hgo|Hgo].
  - destruct (lookup_lt_is_Some_2 arr pos ltac:(lia)) as [y Hy].
    assert (swap arr i pos = <[pos:=x]> (<[i:=y]> arr)) as Hsw
      by (unfold swap; by rewrite Hx, Hy).
    split_and!; simpl.
    + lia.
    + by rewrite Hsw, !length_insert.
    + by rewrite swap_perm.
    + intros j z Hj Hz. rewrite Hsw in Hz.
      destruct (decide (j = pos)) as [->|Hne].
      * rewrite list_lookup_insert_eq in Hz by (rewrite length_insert; lia).
        by simplify_eq.
      * rewrite !list_lookup_insert_ne in Hz by lia.
        apply (HL j z); [lia|done].
    + intros j z Hj Hz. rewrite Hsw in Hz.
      rewrite list_lookup_insert_ne in Hz by lia.
      destruct (decide (j = i)) as [->|Hne].
      * rewrite list_lookup_insert_eq in Hz by lia. simplify_eq.
        apply (HR pos z); [lia|done].
      * rewrite list_lookup_insert_ne in Hz by lia.
        apply (HR j z); [lia|done].
  - split_and!; simpl; try done; [lia|].
    intros j z Hj Hz. destruct (decide (j = i)) as [->|Hne].
    + by simplify_eq.
    + apply (HR j z); [lia|done].
Qed.

Lemma scan_inv_fold ctx si R (n : nat) : forall i state,
  scan_inv ctx si R i state -> i + n <= length R ->
  scan_inv ctx si R (i + n)
           (fold_left (scan_and_swap ctx si) (seq i n) state).
Proof.
  induction n as [|n IH]; intros i state Hinv Hn; simpl.
  - by rewrite Nat.add_0_r.
  - replace (i + S n) with (S i + n) by lia.
    apply IH; [|lia]. apply scan_inv_step; [done|lia].
Qed.

(** The sequential partitioner returns, on each side, a reordering of what
    the split rule sends there. *)
Lemma split_indices_single_thread_spec ctx si R :
  (split_indices_single_thread ctx si R).1 ≡ₚ filter (goes_left ctx si) R
  /\ (split_indices_single_thread ctx si R).2
     ≡ₚ filter (fun i => ~ goes_left ctx si i) R.
Proof.
  unfold split_indices_single_thread, reorder_single_thread.
  pose proof (scan_inv_fold ctx si R (length R) 0 (R, 0)) as Hinv.
  destruct (fold_left _ _ _) as [arr pos]. simpl in *.
  destruct Hinv as (Hp & Hlen & Hperm & HL & HR); [|done|].
  { split_and!; simpl; try done; intros; lia. }
  simpl in Hp, Hlen, Hperm, HL, HR.
  assert (forall x, x ∈ take pos arr -> goes_left ctx si x) as HL'.
  { intros x (j & Hj)%list_elem_of_lookup_1.
    apply lookup_take_Some in Hj as [Hj Hlt]. by apply (HL j). }
  assert (forall x, x ∈ drop pos arr -> ~ goes_left ctx si x) as HR'.
  { intros x (j & Hj)%list_elem_of_lookup_1. rewrite lookup_drop in Hj.
    apply (HR (pos + j) x); [|done]. apply lookup_lt_Some in Hj. lia. }
  assert (filter (goes_left ctx si) arr = take pos arr) as E1.
  { rewrite <- (take_drop pos arr) at 1.
    rewrite filter_app, (filter_all _ (take pos arr)) by done.
    rewrite (filter_none _ (drop pos arr)) by done. by rewrite app_nil_r. }
  assert (filter (fun i => ~ goes_left ctx si i) arr = drop pos arr) as E2.
  { rewrite <- (take_drop pos arr) at 1.
    rewrite filter_app, (filter_all _ (drop pos arr)) by done.
    rewrite (filter_none _ (take pos arr)); [done|].
    intros x Hx Hn. by apply Hn, HL'. }
  split.
  - by rewrite <- E1, Hperm.
  - by rewrite <- E2, Hperm.
Qed.

(** C5: for every range and every split the two partitioners send the same
    set of samples to the left and the same set to the right, whatever the
    positive size of the worker pool; each side is even the same up to the
    order of its elements, those that the split rule sends there. *)
Theorem partitioners_agree ctx si R :
  0 < n_threads ctx ->
  let parallel := split_indices_parallel ctx si R in
  let sequential := split_indices_single_thread ctx si R in
  list_to_set parallel.1 =@{gset nat} list_to_set sequential.1
  /\ list_to_set parallel.2 =@{gset nat} list_to_set sequential.2
  /\ parallel.1 ≡ₚ sequential.1 /\ parallel.2 ≡ₚ sequential.2
  /\ (forall i, i ∈ parallel.1 <-> i ∈ R /\ goes_left ctx si i)
  /\ (forall i, i ∈ parallel.2 <-> i ∈ R /\ ~ goes_left ctx si i).
Proof.
  intros Hk parallel sequential.
  destruct (split_indices_single_thread_spec ctx si R) as (H1 & H2).
  fold sequential in H1, H2.
  unfold parallel. rewrite split_indices_parallel_spec by done. simpl.
  split_and!.
  - by rewrite H1.
  - by rewrite H2.
  - done.
  - done.
  - intros i. rewrite list_elem_of_filter. tauto.
  - intros i. rewrite list_elem_of_filter. tauto.
Qed.

(** ** The scenario of [test_split_indices] (C6) *)

(** The context [test_split_indices] builds, for given gradients: ten
    samples, two features of five bins, the first feature constant, a
    shared hessian of one. *)
Definition split_indices_context (gradients : list Q) (threads : nat)
    : SplittingContext :=
  {| X_binned := [[0; 0; 0; 0; 0; 0; 0; 0; 0; 0];
                  [0; 3; 4; 0; 0; 0; 0; 4; 0; 4]];
     n_bins := 5;
     n_bins_per_feature := [5; 5];
     all_gradients := gradients;
     all_hessians := [1%Q];
     l2_regularization := 0;
     min_hessian_to_split := 1 # 1000;
     min_samples_leaf := 1;
     min_gain_to_split := 0;
     parallel_splitting := true;
     n_threads := threads |}.

(** The samples of the scenario whose bin on feature 1 is 0, and those
    whose bin is at most 3. *)
Definition up_to_bin_0 : list nat := [0; 3; 4; 5; 6; 8].

Definition up_to_bin_3 : list nat := [0; 1; 3; 4; 5; 6; 8].

(** The search on a node returns the first candidate of largest gain, when
    that gain is above the minimum. *)
Lemma find_node_split_at ctx R (pre post : list (option SplitInfo)) c :
  node_cands ctx (node_stats ctx R) (build_histograms ctx R) 0
  = pre ++ Some c :: post ->
  (forall c', Some c' ∈ pre -> (gain c' < gain c)%Q) ->
  (forall c', Some c' ∈ post -> (gain c' <= gain c)%Q) ->
  (min_gain_to_split ctx < gain c)%Q ->
  (find_node_split ctx R).1 = c.
Proof.
  intros Hc Hpre Hpost Hmin. cbn. rewrite scan_features_fold, Hc.
  by apply finalize_first_max.
Qed.

(** C6, as the model has it: in the scenario of [test_split_indices], for
    gradients that give the boundary after bin 3 of feature 1 a positive
    gain, larger than that of the boundary after bin 0, the best split is
    bin 3 of feature 1; the parallel partitioner sends samples 0, 1, 3, 4,
    5, 6 and 8 left and 2, 7 and 9 right, the left ones first in the
    reordered range and the right ones from the split position on, with the
    counts the split anticipated. *)
Theorem split_indices_scenario (gradients : list Q) (threads : nat) :
  let ctx := split_indices_context gradients threads in
  let R := partition ctx in
  length gradients = 10 -> 0 < threads ->
  (gain_of ctx R up_to_bin_0 < gain_of ctx R up_to_bin_3)%Q ->
  (0 < gain_of ctx R up_to_bin_3)%Q ->
  let si := (find_node_split ctx R).1 in
  let samples := split_indices_parallel ctx si R in
  feature_idx si = 1 /\ bin_idx si = 3 /\ (0 <= gain si)%Q
  /\ list_to_set samples.1 =@{gset nat} {[0; 1; 3; 4; 5; 6; 8]}
  /\ list_to_set samples.2 =@{gset nat} {[2; 7; 9]}
  /\ reorder_parallel ctx si R = (samples.1 ++ samples.2, length samples.1)
  /\ length samples.1 = n_samples_left si
  /\ length samples.2 = n_samples_right si.
Proof.
  intros ctx R Hlen Hthreads Hbetter Hpos si samples.
  do 11 (destruct gradients as [|? gradients]; try discriminate Hlen).
  clear Hlen.
  assert (R = seq 0 10) as HR by reflexivity.
  assert (forall b, b < 4 -> left_samples ctx 0 R b = R) as Hleft0.
  { intros b Hb. do 4 (destruct b as [|b]; [by vm_compute|]). lia. }
  assert (forall b, b < 3 -> left_samples ctx 1 R b = up_to_bin_0)
    as Hleft1.
  { intros b Hb. do 3 (destruct b as [|b]; [by vm_compute|]). lia. }
  assert (left_samples ctx 1 R 3 = up_to_bin_3) as Hleft3
    by (by vm_compute).
  destruct (cand_at_accept ctx 1 R 3) as [c Hc].
  { vm_compute. lia. }
  { rewrite Hleft3. by vm_compute. }
  { rewrite Hleft3. by vm_compute. }
  { rewrite Hleft3. vm_compute. lia. }
  { rewrite Hleft3. vm_compute. lia. }
  destruct (cand_at_sums ctx 1 R 3 c ltac:(vm_compute; lia) Hc)
    as (Hf & Hb & Hnl & Hn & Hgain & _).
  rewrite Hleft3 in Hnl, Hgain.
  assert (si = c) as Hsi.
  { apply (find_node_split_at ctx R
             (feature_cands ctx (node_stats ctx R) 0 (build_histogram ctx 0 R)
              ++ (cand_at ctx (node_stats ctx R) 1 (build_histogram ctx 1 R)
                  <$> seq 0 3)) []).
    - change (build_histograms ctx R)
        with [build_histogram ctx 0 R; build_histogram ctx 1 R].
      cbn [node_cands].
      destruct (feature_cands_split ctx (node_stats ctx R) 1
                  (build_histogram ctx 1 R) 3) as (m & -> & Hm).
      { rewrite build_histogram_length. vm_compute. lia. }
      rewrite build_histogram_length in Hm.
      assert (m = 0) as -> by (vm_compute in Hm; lia).
      rewrite Hc, app_nil_r. by simpl.
    - intros c' [Hin|Hin]%elem_of_app.
      + unfold feature_cands in Hin.
        apply list_elem_of_fmap in Hin as (b & Hc' & Hin).
        apply elem_of_seq in Hin. rewrite build_histogram_length in Hin.
        assert (b < 4) as Hb4 by (vm_compute in Hin; lia).
        destruct (cand_at_sums ctx 0 R b c' ltac:(vm_compute; lia)
                    (eq_sym Hc')) as (_ & _ & _ & _ & _ & _ & Hright).
        rewrite (Hleft0 b Hb4) in Hright. vm_compute in Hright. lia.
      + apply list_elem_of_fmap in Hin as (b & Hc' & Hin).
        apply elem_of_seq in Hin.
        destruct (cand_at_sums ctx 1 R b c' ltac:(vm_compute; lia)
                    (eq_sym Hc')) as (_ & _ & _ & _ & Hgain' & _).
        rewrite (Hleft1 b ltac:(lia)) in Hgain'. by rewrite Hgain', Hgain.
    - intros c' Hin. by apply elem_of_nil in Hin.
    - rewrite Hgain. exact Hpos. }
  assert (filter (goes_left ctx si) R = [0; 1; 3; 4; 5; 6; 8]) as Hfl.
  { rewrite (list_filter_iff _ (fun i => bin_of ctx 1 i <= 3)).
    - by vm_compute.
    - intros i. unfold goes_left. by rewrite Hsi, Hf, Hb. }
  assert (filter (fun i => ~ goes_left ctx si i) R = [2; 7; 9]) as Hfr.
  { rewrite (list_filter_iff _ (fun i => ~ bin_of ctx 1 i <= 3)).
    - by vm_compute.
    - intros i. unfold goes_left. by rewrite Hsi, Hf, Hb. }
  assert (samples = ([0; 1; 3; 4; 5; 6; 8], [2; 7; 9])) as Hsamples.
  { unfold samples. rewrite split_indices_parallel_spec by done.
    by rewrite Hfl, Hfr. }
  rewrite reorder_parallel_spec by done.
  rewrite Hsamples, Hfl, Hfr, Hsi. simpl.
  change (length R) with 10 in Hn. change (length up_to_bin_3) with 7 in Hnl.
  split_and!.
  - done.
  - done.
  - rewrite Hgain. lra.
  - apply set_eq. intros i. set_solver.
  - apply set_eq. intros i. set_solver.
  - done.
  - lia.
  - lia.
Qed.

(** ** The scenarios of the tests, evaluated *)

(** The context [test_histogram_split] builds from a binned feature: two
    features of [bins] bins, gradients [-sign] where the bin on the first
    feature is at most [true_bin] and [sign] elsewhere, one hessian of one
    per sample. *)
Definition histogram_split_context (bins : nat) (binned_feature other : list nat)
    (true_bin : nat) (sign : Q) : SplittingContext :=
  {| X_binned := [binned_feature; other];
     n_bins := bins;
     n_bins_per_feature := [bins; bins];
     all_gradients :=
       (fun b => if decide (b <= true_bin) then (- sign)%Q else sign)
       <$> binned_feature;
     all_hessians := (fun _ => 1%Q) <$> binned_feature;
     l2_regularization := 0;
     min_hessian_to_split := 1 # 1000;
     min_samples_leaf := 1;
     min_gain_to_split := 0;
     parallel_splitting := true;
     n_threads := 1 |}.

(** Gradients for [split_indices_context], and the context with them and a
    pool of three workers. *)
Definition scenario_gradients : list Q := [1; -2; 3; 1; 1; 1; 1; 3; 1; 3]%Q.

Definition scenario : SplittingContext :=
  split_indices_context scenario_gradients 3.

(** The same context on a pure node: all gradients equal. *)
Definition pure_scenario : SplittingContext :=
  split_indices_context (replicate 10 1%Q) 3.

(** Gradients that the boundary after bin 0 of feature 1 separates. *)
Definition separated_scenario : SplittingContext :=
  split_indices_context [1; -1; -1; 1; 1; 1; 1; -1; 1; -1]%Q 3.

(** The context of [test_histogram_split] for three bins, a true bin of 1
    and a sign of one: on samples of bins 0, 1, 2 and 1, and on samples of
    bins 0 and 2, which leave bin 1 empty. *)
Definition signed_scenario : SplittingContext :=
  histogram_split_context 3 [0; 1; 2; 1] [0; 0; 0; 0] 1 1.

Definition empty_bin_scenario : SplittingContext :=
  histogram_split_context 3 [0; 2] [0; 0] 1 1.

(** A node of the scenario and its sibling under the root. *)
Definition first_half : list nat := [0; 1; 2; 3; 4].

Definition second_half : list nat := [5; 6; 7; 8; 9].

Lemma bins_in_range_check ctx R :
  forallb (fun f => forallb (fun i => bin_of ctx f i <? n_bins ctx) R)
          (seq 0 (n_features ctx)) = true ->
  bins_in_range ctx R.
Proof.
  intros Hall f i Hf Hi. rewrite forallb_forall in Hall.
  specialize (Hall f ltac:(apply in_seq; lia)).
  rewrite forallb_forall in Hall.
  apply Nat.ltb_lt, Hall. by apply list_elem_of_In.
Qed.

(** The subtraction method on the first five samples of the scenario, their
    sibling being the other five. *)
Lemma subtraction_agrees_witness :
  partition scenario ≡ₚ first_half ++ second_half
  /\ bins_in_range scenario first_half
  /\ Forall2 hist_equiv
       (find_node_split_subtraction scenario first_half
          (find_node_split scenario (partition scenario)).2
          (find_node_split scenario second_half).2).2
       (find_node_split scenario first_half).2
  /\ split_equiv
       (find_node_split_subtraction scenario first_half
          (find_node_split scenario (partition scenario)).2
          (find_node_split scenario second_half).2).1
       (find_node_split scenario first_half).1.
Proof.
  assert (partition scenario ≡ₚ first_half ++ second_half) as Hp
    by reflexivity.
  assert (bins_in_range scenario first_half) as Hwf
    by (apply bins_in_range_check; reflexivity).
  split; [exact Hp|]. split; [exact Hwf|].
  exact (subtraction_agrees scenario _ _ _ Hp Hwf).
Defined.

(** On a pure node the search returns the sentinel. *)
Lemma no_split_below_min_gain_witness :
  (find_node_split pure_scenario (partition pure_scenario)).1 = no_split
  /\ (_find_histogram_split pure_scenario 1 (partition pure_scenario)).1
     = no_split.
Proof.
  destruct (no_split_below_min_gain pure_scenario (partition pure_scenario))
    as (_ & _ & _ & Hpure).
  destruct (Hpure 1%Q 1%Q) as (Hnode & Hfeature).
  - apply Forall_forall. by repeat constructor.
  - apply Forall_forall. by repeat constructor.
  - discriminate.
  - discriminate.
  - discriminate.
  - split; [exact Hnode|exact (Hfeature 1)].
Defined.

(** The split of the first five samples of the scenario. *)
Lemma split_info_sums_witness :
  bins_in_range scenario first_half
  /\ partition scenario ≡ₚ first_half ++ second_half
  /\ ~ (gain (find_node_split scenario first_half).1 == -1)%Q
  /\ split_sums_ok scenario first_half
       (find_node_split scenario first_half).1.
Proof.
  assert (partition scenario ≡ₚ first_half ++ second_half) as Hp
    by reflexivity.
  assert (bins_in_range scenario first_half) as Hwf
    by (apply bins_in_range_check; reflexivity).
  assert (~ (gain (find_node_split scenario first_half).1 == -1)%Q)
    as Hgain by (intros H; vm_compute in H; discriminate H).
  split; [exact Hwf|]. split; [exact Hp|]. split; [exact Hgain|].
  exact (split_info_sums scenario _ _ _ _ Hwf Hp (or_introl eq_refl) Hgain).
Defined.

(** The histograms of the first five samples of the scenario. *)
Lemma histogram_totals_witness :
  bins_in_range scenario first_half
  /\ partition scenario ≡ₚ first_half ++ second_half
  /\ forall f hist,
       (find_node_split scenario first_half).2 !! f = Some hist ->
       sum_list_with count hist = 5
       /\ (Qsum (sum_gradients <$> hist) == 4)%Q
       /\ (Qsum (sum_hessians <$> hist) == 0)%Q.
Proof.
  assert (partition scenario ≡ₚ first_half ++ second_half) as Hp
    by reflexivity.
  assert (bins_in_range scenario first_half) as Hwf
    by (apply bins_in_range_check; reflexivity).
  split; [exact Hwf|]. split; [exact Hp|].
  intros f hist Hf.
  destruct (histogram_totals scenario _ _ _ Hwf Hp) as (Hall & _).
  destruct (Hall f hist (or_introl Hf)) as (Hc & Hg & Hh).
  split; [exact Hc|]. split; [|exact Hh].
  rewrite Hg. reflexivity.
Defined.

(** The two partitioners on the root of the scenario, for its best split. *)
Lemma partitioners_agree_witness :
  0 < n_threads scenario
  /\ split_indices_parallel scenario
       (find_node_split scenario (partition scenario)).1 (partition scenario)
     = ([0; 1; 3; 4; 5; 6; 8], [2; 7; 9])
  /\ split_indices_single_thread scenario
       (find_node_split scenario (partition scenario)).1 (partition scenario)
     = ([0; 1; 3; 4; 5; 6; 8], [7; 2; 9])
  /\ list_to_set
       (split_indices_parallel scenario
          (find_node_split scenario (partition scenario)).1
          (partition scenario)).2
     =@{gset nat}
     list_to_set
       (split_indices_single_thread scenario
          (find_node_split scenario (partition scenario)).1
          (partition scenario)).2.
Proof.
  assert (0 < n_threads scenario) as Hk by (simpl; lia).
  split; [exact Hk|]. split; [reflexivity|]. split; [reflexivity|].
  destruct (partitioners_agree scenario
              (find_node_split scenario (partition scenario)).1
              (partition scenario) Hk) as (_ & Hright & _).
  exact Hright.
Defined.

(** The scenario of [test_split_indices] with [scenario_gradients]. *)
Lemma split_indices_scenario_witness :
  length scenario_gradients = 10
  /\ (gain_of scenario (partition scenario) up_to_bin_0
      < gain_of scenario (partition scenario) up_to_bin_3)%Q
  /\ (0 < gain_of scenario (partition scenario) up_to_bin_3)%Q
  /\ feature_idx (find_node_split scenario (partition scenario)).1 = 1
  /\ bin_idx (find_node_split scenario (partition scenario)).1 = 3
  /\ reorder_parallel scenario
       (find_node_split scenario (partition scenario)).1 (partition scenario)
     = ([0; 1; 3; 4; 5; 6; 8; 2; 7; 9], 7).
Proof.
  assert (gain_of scenario (partition scenario) up_to_bin_0
          < gain_of scenario (partition scenario) up_to_bin_3)%Q
    as Hbetter by reflexivity.
  assert (0 < gain_of scenario (partition scenario) up_to_bin_3)%Q
    as Hpos by reflexivity.
  split; [reflexivity|]. split; [exact Hbetter|]. split; [exact Hpos|].
  destruct (split_indices_scenario scenario_gradients 3 eq_refl
              ltac:(lia) Hbetter Hpos) as (Hf & Hb & _).
  split; [exact Hf|]. split; [exact Hb|]. reflexivity.
Defined.

(** With gradients that bin 0 of feature 1 separates, the best split of the
    scenario is at bin 0, not at bin 3. *)
Lemma split_indices_scenario_counterexample :
  feature_idx
    (find_node_split separated_scenario (partition separated_scenario)).1 = 1
  /\ bin_idx
       (find_node_split separated_scenario (partition separated_scenario)).1
     = 0
  /\ bin_idx
       (find_node_split separated_scenario (partition separated_scenario)).1
     <> 3.
Proof. split; [reflexivity|]. split; [reflexivity|]. discriminate. Qed.

(** A signed split at bin 1 of three bins, on samples of bins 0, 1, 2
    and 1. *)
Lemma histogram_split_signed_witness :
  (exists i, i ∈ partition signed_scenario
             /\ bin_of signed_scenario 0 i = 1)
  /\ (exists i, i ∈ partition signed_scenario
                /\ 1 < bin_of signed_scenario 0 i)
  /\ bin_idx (_find_histogram_split signed_scenario 0
                (partition signed_scenario)).1 = 1
  /\ (0 <= gain (_find_histogram_split signed_scenario 0
                   (partition signed_scenario)).1)%Q
  /\ n_samples_left (_find_histogram_split signed_scenario 0
                       (partition signed_scenario)).1
     + n_samples_right (_find_histogram_split signed_scenario 0
                          (partition signed_scenario)).1
     = 4.
Proof.
  assert (exists i, i ∈ partition signed_scenario
                    /\ bin_of signed_scenario 0 i = 1) as Hat.
  { exists 1. split; [|reflexivity]. right. left. }
  assert (exists i, i ∈ partition signed_scenario
                    /\ 1 < bin_of signed_scenario 0 i) as Habove.
  { exists 2. split; [|vm_compute; lia]. right. right. left. }
  split; [exact Hat|]. split; [exact Habove|].
  destruct (histogram_split_signed signed_scenario 0
              (partition signed_scenario) 1 1) as (Hb & Hg & _ & Hn).
  - simpl. lia.
  - reflexivity.
  - left. reflexivity.
  - apply Forall_forall. by repeat constructor.
  - apply Forall_forall. by repeat constructor.
  - reflexivity.
  - discriminate.
  - reflexivity.
  - reflexivity.
  - exact Hat.
  - exact Habove.
  - split; [exact Hb|]. split; [exact Hg|]. exact Hn.
Defined.

(** With no sample in bin 1, the signed split at bin 1 of three bins is
    found at bin 0: the boundaries after bins 0 and 1 have the same sides,
    and the first one met is kept. *)
Lemma histogram_split_signed_counterexample :
  3 <= n_bins empty_bin_scenario
  /\ 1 <= 1 <= n_bins empty_bin_scenario - 2
  /\ (forall i, i ∈ partition empty_bin_scenario ->
        (gradient_of empty_bin_scenario i
         == if decide (bin_of empty_bin_scenario 0 i <= 1)%nat
            then - (1) else 1)%Q
        /\ (hessian_of empty_bin_scenario i == 1)%Q)
  /\ bin_idx (_find_histogram_split empty_bin_scenario 0
                (partition empty_bin_scenario)).1 = 0
  /\ bin_idx (_find_histogram_split empty_bin_scenario 0
                (partition empty_bin_scenario)).1 <> 1.
Proof.
  split; [simpl; lia|]. split; [simpl; lia|]. split.
  - apply Forall_forall. by repeat constructor.
  - split; [reflexivity|discriminate].
Qed.

End SplittingFacts.
